(** * auto-merge-pr: the event router, the eligibility checks and the merge step

    A shallow embedding of [src/main.ts] and the properties its specification
    states about it.

    Conventions of the embedding:
    - JavaScript strings are [string]s; [toLowerCase] and [trim] are modelled
      on ASCII letters and ASCII white space (other characters are left as
      they are);
    - a PR number is a [Z], printed in decimal by stdpp's [pretty];
    - [async] functions are computations in the monad [Async]: they thread
      the state of the run (the cache map, the log of remote calls issued
      and diagnostics written so far, the exit code) and end by returning, by
      throwing, or by running out of fuel (the model's stand-in for a
      listing whose pages never end);
    - the remote (GitHub's REST API behind [octokit]) is a record of
      functions from the history of calls to a response, so that what it
      answers may change from one call to the next. *)

From Stdlib Require Import ZArith String Ascii List Bool Lia.
From stdpp Require Import gmap strings pretty.

Local Open Scope Z_scope.

(** ** JavaScript built-ins used by the source *)

Module JS.

(** [String.prototype.toLowerCase], on ASCII. *)
Definition lower_ascii (c : ascii) : ascii :=
  let n := nat_of_ascii c in
  if ((65 <=? n)%nat && (n <=? 90)%nat)%bool then ascii_of_nat (n + 32) else c.

Fixpoint toLowerCase (s : string) : string :=
  match s with
  | EmptyString => EmptyString
  | String c s' => String (lower_ascii c) (toLowerCase s')
  end.

(** White space and line terminators removed by [String.prototype.trim]
    (tab, line feed, vertical tab, form feed, carriage return, space). *)
Definition is_white (c : ascii) : bool :=
  let n := nat_of_ascii c in
  (((9 <=? n)%nat && (n <=? 13)%nat) || (n =? 32)%nat)%bool.

Fixpoint trimStart (s : string) : string :=
  match s with
  | EmptyString => EmptyString
  | String c s' => if is_white c then trimStart s' else s
  end.

Fixpoint trimEnd (s : string) : string :=
  match s with
  | EmptyString => EmptyString
  | String c s' =>
      match trimEnd s' with
      | EmptyString => if is_white c then EmptyString else String c EmptyString
      | t => String c t
      end
  end.

Definition trim (s : string) : string := trimEnd (trimStart s).

(** [s.split(/[\r\n,;]+/g)]: the separators are maximal runs of carriage
    returns, line feeds, commas and semicolons.  The head of the result is
    the piece being read; [in_sep] tells that the previous character was a
    separator already. *)
Definition is_separator (c : ascii) : bool :=
  let n := nat_of_ascii c in
  ((n =? 13)%nat || (n =? 10)%nat || (n =? 44)%nat || (n =? 59)%nat)%bool.

Fixpoint split_from (in_sep : bool) (s : string) : list string :=
  match s with
  | EmptyString => [EmptyString]
  | String c s' =>
      if is_separator c then
        if in_sep then split_from true s' else EmptyString :: split_from true s'
      else
        match split_from false s' with
        | piece :: pieces => String c piece :: pieces
        | [] => [String c EmptyString]
        end
  end.

Definition split (s : string) : list string := split_from false s.

(** [Array.prototype.join]. *)
Fixpoint join (sep : string) (l : list string) : string :=
  match l with
  | [] => EmptyString
  | [x] => x
  | x :: l' => x +:+ sep +:+ join sep l'
  end.

(** [Array.prototype.includes] on strings (strict equality). *)
Definition includes (l : list string) (x : string) : bool :=
  existsb (String.eqb x) l.

(** Truthiness of [array.length] / [string.length]. *)
Definition has_length {A} (l : list A) : bool :=
  match l with [] => false | _ => true end.

Definition nonempty (s : string) : bool :=
  match s with EmptyString => false | _ => true end.

(** Truthiness of a [string | null] value. *)
Definition truthy_string (o : option string) : bool :=
  match o with Some s => nonempty s | None => false end.

(** A [string | null] value inside a template literal. *)
Definition template_string (o : option string) : string :=
  match o with Some s => s | None => "null" end.

End JS.

(** ** Data of the GitHub API read by the source *)

Record Repository := { html_url : string }.

Record BaseRef := { base_ref : string; base_repo : Repository }.

Record HeadRef := { head_sha : string; head_repo : option Repository }.

Record Label := { label_name : string }.

Record SimpleUser := { login : option string }.

Record AutoMerge := { enabled_merge_method : string }.

(** The fields shared by [pull-request] and [pull-request-simple]. *)
Record PullRequestSimple := {
  number : Z;
  base : BaseRef;
  head : HeadRef;
  merged_at : option string;
  auto_merge : option AutoMerge;
  draft : option bool;
  labels : list Label;
  user : option SimpleUser
}.

(** [pull-request] adds [mergeable : boolean | null]. *)
Record PullRequest := {
  simple : PullRequestSimple;
  mergeable : option bool
}.

(** The value bound to [pr] in [processPr]. *)
Inductive Snapshot :=
| Full (pr : PullRequest)
| Listed (pr : PullRequestSimple).

Definition fields (pr : Snapshot) : PullRequestSimple :=
  match pr with Full p => simple p | Listed p => p end.

(** [(pr as PullRequest).mergeable]: [None] is [undefined] (the field does
    not exist on a listed snapshot), [Some None] is [null]. *)
Definition mergeable_of (pr : Snapshot) : option (option bool) :=
  match pr with Full p => Some (mergeable p) | Listed _ => None end.

(** The argument of [processPr]. *)
Inductive PrParam :=
| ByValue (pr : Snapshot)
| ByNumber (n : Z).

Record StatusCheck := { check_context : string }.

Record RequiredStatusChecks := { checks : option (list StatusCheck) }.

Record BranchProtection := {
  enabled : option bool;
  required_status_checks : option RequiredStatusChecks
}.

Record Branch := { protection : BranchProtection }.

(** One response of the paginated listing: the PRs of the page, and whether
    the response links to a next page. *)
Record Page := { data : list PullRequestSimple; has_next : bool }.

Record PullRequestMinimal := { mini_number : Z }.

Record CheckRun := {
  check_run_id : Z;
  check_run_html_url : string;
  conclusion : option string;
  pull_requests : list PullRequestMinimal
}.

Record CheckRunCompleted := { check_run_action : string; check_run : CheckRun }.

Record DeploymentStatus := { state : string }.

Record DeploymentStatusCreated := { deployment_status : DeploymentStatus }.

Inductive Payload :=
| CheckRunPayload (event : CheckRunCompleted)
| DeploymentStatusPayload (event : DeploymentStatusCreated)
| OtherPayload.

Record RepoRef := { owner : string; repo : string }.

Record Context := {
  eventName : string;
  payload : Payload;
  runId : Z;
  context_repo : RepoRef
}.

(** The values [core.getInput] returns for the action's inputs. *)
Record Inputs := {
  input_requiredLabels : string;
  input_authors : string;
  input_preferredMergeOption : string;
  input_dryRun : string
}.

(** ** The remote, the state of a run and the monad of [async] code *)

Definition Err := string.

Inductive Response (A : Type) :=
| Resolved (a : A)
| Rejected (e : Err).
Arguments Resolved {A} a.
Arguments Rejected {A} e.

Record MergeArgs := {
  merge_owner : string;
  merge_repo : string;
  pull_number : Z;
  sha : string;
  merge_method : option string
}.

Inductive Call :=
| PullsGet (r : RepoRef) (pull_number : Z)
| ReposGetBranch (r : RepoRef) (branch : string)
| PullsList (r : RepoRef) (state : string) (page : nat)
| PullsMerge (args : MergeArgs).

(** A call that was issued, and the error it was rejected with, if any. *)
Definition Interaction : Type := Call * option Err.

Record Remote := {
  pulls_get : list Interaction -> RepoRef -> Z -> Response PullRequest;
  repos_getBranch : list Interaction -> RepoRef -> string -> Response Branch;
  pulls_list : list Interaction -> RepoRef -> nat -> Response Page;
  pulls_merge : list Interaction -> MergeArgs -> Response unit
}.

Inductive Diagnostic :=
| Warning (message : string)
| Debug (message : string)
| Error (message : string)
| StartGroup (title : string)
| EndGroup.

(** What a run does that can be observed, in the order it happens. *)
Inductive Event :=
| Called (c : Call) (failure : option Err)
| Wrote (d : Diagnostic).

Record State := {
  doesBranchHaveRequiredChecksCache : gmap string bool;
  log : list Event;
  exitCode : Z
}.

(** The remote calls issued so far: what the remote has seen of the run. *)
Fixpoint calls_of (l : list Event) : list Interaction :=
  match l with
  | [] => []
  | Called c f :: l' => (c, f) :: calls_of l'
  | Wrote _ :: l' => calls_of l'
  end.

Fixpoint diagnostics_of (l : list Event) : list Diagnostic :=
  match l with
  | [] => []
  | Called _ _ :: l' => diagnostics_of l'
  | Wrote d :: l' => d :: diagnostics_of l'
  end.

Definition calls (s : State) : list Interaction := calls_of (log s).

Definition diagnostics (s : State) : list Diagnostic := diagnostics_of (log s).

Definition initial : State :=
  {| doesBranchHaveRequiredChecksCache := ∅; log := []; exitCode := 0 |}.

Definition with_cache (m : gmap string bool) (s : State) : State :=
  {| doesBranchHaveRequiredChecksCache := m; log := log s; exitCode := exitCode s |}.

Definition with_event (e : Event) (s : State) : State :=
  {| doesBranchHaveRequiredChecksCache := doesBranchHaveRequiredChecksCache s;
     log := log s ++ [e]; exitCode := exitCode s |}.

Definition with_call (i : Interaction) (s : State) : State :=
  with_event (Called (fst i) (snd i)) s.

Definition with_diagnostic (d : Diagnostic) (s : State) : State :=
  with_event (Wrote d) s.

Definition with_exitCode (c : Z) (s : State) : State :=
  {| doesBranchHaveRequiredChecksCache := doesBranchHaveRequiredChecksCache s;
     log := log s; exitCode := c |}.

Inductive Outcome (A : Type) :=
| Returned (a : A)
| Thrown (e : Err)
| OutOfFuel.
Arguments Returned {A} a.
Arguments Thrown {A} e.
Arguments OutOfFuel {A}.

Definition Async (A : Type) : Type := State -> Outcome A * State.

Definition ret {A} (a : A) : Async A := fun s => (Returned a, s).

Definition bind {A B} (m : Async A) (k : A -> Async B) : Async B :=
  fun s =>
    match m s with
    | (Returned a, s') => k a s'
    | (Thrown e, s') => (Thrown e, s')
    | (OutOfFuel, s') => (OutOfFuel, s')
    end.

Definition throw {A} (e : Err) : Async A := fun s => (Thrown e, s).

Definition out_of_fuel {A} : Async A := fun s => (OutOfFuel, s).

Declare Scope async_scope.
Delimit Scope async_scope with async.
Notation "x <- m ;; k" := (bind m (fun x => k))
  (at level 100, m at next level, right associativity) : async_scope.
Notation "m ;; k" := (bind m (fun _ => k))
  (at level 100, right associativity) : async_scope.
Local Open Scope async_scope.

(** [try { m } finally { f }], for a finaliser that only writes output. *)
Definition try_finally {A} (m : Async A) (f : State -> State) : Async A :=
  fun s =>
    match m s with
    | (Returned a, s') => (Returned a, f s')
    | (Thrown e, s') => (Thrown e, f s')
    | (OutOfFuel, s') => (OutOfFuel, s')
    end.

(** [try { m } catch (error) { h error }]. *)
Definition try_catch {A} (m : Async A) (h : Err -> Async A) : Async A :=
  fun s =>
    match m s with
    | (Thrown e, s') => h e s'
    | r => r
    end.

(** [for (const x of l) { await body x }]. *)
Fixpoint for_of {A} (l : list A) (body : A -> Async unit) : Async unit :=
  match l with
  | [] => ret tt
  | x :: l' => body x ;; for_of l' body
  end.

(** [await] of a remote call: the call is recorded with its fate. *)
Definition await {A} (c : Call) (answer : list Interaction -> Response A) : Async A :=
  fun s =>
    match answer (calls s) with
    | Resolved a => (Returned a, with_call (c, None) s)
    | Rejected e => (Thrown e, with_call (c, Some e) s)
    end.

(** ** [@actions/core] *)

Module core.

Definition write (d : Diagnostic) : Async unit :=
  fun s => (Returned tt, with_diagnostic d s).

Definition warning (message : string) : Async unit := write (Warning message).

Definition debug (message : string) : Async unit := write (Debug message).

(** [core.group]: [startGroup], the body, and [endGroup] in a [finally]. *)
Definition group {A} (title : string) (fn : Async A) : Async A :=
  write (StartGroup title) ;; try_finally fn (with_diagnostic EndGroup).

(** [core.setFailed]: the exit code becomes 1 and the error is written. *)
Definition setFailed (e : Err) : Async unit :=
  fun s => (Returned tt, with_diagnostic (Error e) (with_exitCode 1 s)).

End core.

(** ** [src/main.ts] *)

Section Main.

Variable octokit : Remote.
Variable context : Context.
Variable inputs : Inputs.

Definition requiredLabels : list string :=
  List.filter (fun it => JS.nonempty it)
    (List.map (fun it => JS.toLowerCase (JS.trim it))
       (JS.split (input_requiredLabels inputs))).

Definition authors : list string :=
  List.filter (fun it => JS.nonempty it)
    (List.map (fun it => JS.toLowerCase (JS.trim it))
       (JS.split (input_authors inputs))).

Definition preferredMergeOption : string := input_preferredMergeOption inputs.

Definition dryRun : bool := String.eqb (JS.toLowerCase (input_dryRun inputs)) "true".

(** The cache [Map]: [has]/[get] and [set]. *)
Definition cache_get (branchName : string) : Async (option bool) :=
  fun s => (Returned (doesBranchHaveRequiredChecksCache s !! branchName), s).

Definition cache_set (branchName : string) (v : bool) : Async unit :=
  fun s =>
    (Returned tt,
     with_cache (<[branchName := v]> (doesBranchHaveRequiredChecksCache s)) s).

(** [!!(branch.protection.enabled &&
        branch.protection?.required_status_checks?.checks?.length)] *)
Definition branch_has_required_checks (branch : Branch) : bool :=
  match enabled (protection branch) with
  | Some true =>
      match required_status_checks (protection branch) with
      | Some r =>
          match checks r with
          | Some l => JS.has_length l
          | None => false
          end
      | None => false
      end
  | _ => false
  end.

Definition doesBranchHaveRequiredChecks (branchName : string) : Async bool :=
  cached <- cache_get branchName ;;
  match cached with
  | Some v => ret v
  | None =>
      branch <- await (ReposGetBranch (context_repo context) branchName)
                  (fun h => repos_getBranch octokit h (context_repo context) branchName) ;;
      let hasRequiredChecks := branch_has_required_checks branch in
      cache_set branchName hasRequiredChecks ;;
      ret hasRequiredChecks
  end.

(** The callback of [core.group] in [processPr] from the point where [pr]
    is bound: the eight checks, each with its early [return], and the
    merge. *)
Definition processSnapshot (prNumber : Z) (pr : Snapshot) : Async unit :=
  let baseRepo := html_url (base_repo (base (fields pr))) in
  let headRepo :=
    match head_repo (head (fields pr)) with
    | Some r => html_url r
    | None => ""
    end in
  if negb (String.eqb baseRepo headRepo) then
    core.warning ("Skipping PR #" +:+ pretty prNumber +:+ ": base's repo " +:+ baseRepo
                  +:+ " is different from head's repo " +:+ headRepo)
  else if JS.truthy_string (merged_at (fields pr)) then
    core.warning ("Skipping PR #" +:+ pretty prNumber +:+ ": already merged")
  else if (match auto_merge (fields pr) with Some _ => true | None => false end) then
    core.warning ("Skipping PR #" +:+ pretty prNumber
                  +:+ ": auto merge is already activated")
  else if (match draft (fields pr) with Some true => true | _ => false end) then
    core.warning ("Skipping PR #" +:+ pretty prNumber +:+ ": draft")
  else if (JS.has_length requiredLabels
           && negb (forallb (fun label =>
                               existsb (fun it =>
                                          String.eqb (JS.toLowerCase (label_name it)) label)
                                 (labels (fields pr)))
                      requiredLabels))%bool then
    core.warning ("Skipping PR #" +:+ pretty prNumber
                  +:+ ": doesn't have all required labels: "
                  +:+ JS.join ", " requiredLabels)
  else
    let author :=
      match user (fields pr) with
      | Some u => match login u with Some l => JS.toLowerCase l | None => "" end
      | None => ""
      end in
    if (JS.has_length authors && negb (JS.includes authors author))%bool then
      core.warning ("Skipping PR #" +:+ pretty prNumber +:+ ": the author " +:+ author
                    +:+ " if not one of: " +:+ JS.join ", " authors)
    else if (match mergeable_of pr with Some (Some false) => true | _ => false end) then
      core.warning ("Skipping PR #" +:+ pretty prNumber +:+ ": not mergeable")
    else
      hasRequiredChecks <- doesBranchHaveRequiredChecks (base_ref (base (fields pr))) ;;
      if negb hasRequiredChecks then
        core.warning ("Skipping PR #" +:+ pretty prNumber +:+ ": the base branch '"
                      +:+ base_ref (base (fields pr))
                      +:+ "' doesn't have required status checks")
      else
        core.warning ("Merging PR #" +:+ pretty prNumber) ;;
        if negb dryRun then
          await (PullsMerge
                   {| merge_owner := owner (context_repo context);
                      merge_repo := repo (context_repo context);
                      pull_number := prNumber;
                      sha := head_sha (head (fields pr));
                      merge_method :=
                        if JS.nonempty preferredMergeOption
                        then Some preferredMergeOption else None |})
            (fun h => pulls_merge octokit h
               {| merge_owner := owner (context_repo context);
                  merge_repo := repo (context_repo context);
                  pull_number := prNumber;
                  sha := head_sha (head (fields pr));
                  merge_method :=
                    if JS.nonempty preferredMergeOption
                    then Some preferredMergeOption else None |})
        else ret tt.

Definition processPr (prParam : PrParam) : Async unit :=
  let prNumber :=
    match prParam with ByNumber n => n | ByValue pr => number (fields pr) end in
  core.group ("Processing PR #" +:+ pretty prNumber) (
    pr <- match prParam with
          | ByValue pr => ret pr
          | ByNumber _ =>
              it <- await (PullsGet (context_repo context) prNumber)
                      (fun h => pulls_get octokit h (context_repo context) prNumber) ;;
              ret (Full it)
          end ;;
    processSnapshot prNumber pr).

(** [octokit.paginate.iterator(octokit.pulls.list, {state: 'open'})] and
    the [for await] over it: a page is requested only when the PRs of the
    page before it have been processed.  [fuel] bounds the number of
    pages requested. *)
Fixpoint processPages (fuel : nat) (page : nat) : Async unit :=
  match fuel with
  | O => out_of_fuel
  | S fuel' =>
      response <- await (PullsList (context_repo context) "open" page)
                    (fun h => pulls_list octokit h (context_repo context) page) ;;
      for_of (data response) (fun pr => processPr (ByValue (Listed pr))) ;;
      if has_next response then processPages fuel' (S page) else ret tt
  end.

Definition processAllPrs (fuel : nat) : Async unit := processPages fuel 1.

Definition processCheckRunCompletedEvent (event : CheckRunCompleted) : Async unit :=
  if (check_run_id (check_run event) =? runId context)%Z then
    core.debug ("Skipping current check run: " +:+ check_run_html_url (check_run event))
  else if negb (String.eqb (check_run_action event) "completed") then
    core.debug ("Skipping check run by action: '" +:+ check_run_action event +:+ "'")
  else if negb (JS.includes ["success"; "skipped"]
                  (match conclusion (check_run event) with Some c => c | None => "" end)) then
    core.debug ("Skipping check run by conclusion: '"
                +:+ JS.template_string (conclusion (check_run event)) +:+ "'")
  else
    for_of (pull_requests (check_run event))
      (fun prMini => processPr (ByNumber (mini_number prMini))).

Definition processDeploymentStatusCreated (fuel : nat) (event : DeploymentStatusCreated)
  : Async unit :=
  if negb (String.eqb (state (deployment_status event)) "success") then
    core.debug ("Skipping deployment status by state: '"
                +:+ state (deployment_status event) +:+ "'")
  else processAllPrs fuel.

(** [context.payload as CheckRunCompleted]: the cast is unchecked, and a
    payload of another shape makes the first property read throw. *)
Definition as_CheckRunCompleted (p : Payload) : Async CheckRunCompleted :=
  match p with
  | CheckRunPayload event => ret event
  | _ => throw "TypeError: Cannot read properties of undefined (reading 'id')"
  end.

Definition as_DeploymentStatusCreated (p : Payload) : Async DeploymentStatusCreated :=
  match p with
  | DeploymentStatusPayload event => ret event
  | _ => throw "TypeError: Cannot read properties of undefined (reading 'state')"
  end.

(** The [try] block of [run]. *)
Definition dispatch (fuel : nat) : Async unit :=
  if String.eqb (eventName context) "branch_protection_rule" then
    processAllPrs fuel
  else if String.eqb (eventName context) "check_run" then
    event <- as_CheckRunCompleted (payload context) ;;
    processCheckRunCompletedEvent event
  else if String.eqb (eventName context) "deployment_status" then
    event <- as_DeploymentStatusCreated (payload context) ;;
    processDeploymentStatusCreated fuel event
  else if String.eqb (eventName context) "pull_request" then
    core.warning ("Unsupported event: '" +:+ eventName context +:+ "'")
  else if String.eqb (eventName context) "pull_request_review" then
    core.warning ("Unsupported event: '" +:+ eventName context +:+ "'")
  else if String.eqb (eventName context) "push" then
    processAllPrs fuel
  else if String.eqb (eventName context) "schedule" then
    processAllPrs fuel
  else if String.eqb (eventName context) "status" then
    core.warning ("Unsupported event: '" +:+ eventName context +:+ "'")
  else if String.eqb (eventName context) "workflow_dispatch" then
    processAllPrs fuel
  else
    core.warning ("Unsupported event: '" +:+ eventName context +:+ "'").

Definition run (fuel : nat) : Async unit :=
  try_catch (dispatch fuel) (fun error => core.setFailed error ;; throw error).

End Main.

(** ** The admission policy, as the specification words it *)

(** The eight admission predicates. *)
Inductive Predicate :=
| SameRepository
| NotMerged
| AutoMergeNotActivated
| NotDraft
| RequiredLabelsPresent
| AuthorAllowed
| MergeableNotFalse
| BaseHasRequiredChecks.

(** The order in which the specification lists them. *)
Definition admission_order : list Predicate :=
  [SameRepository; NotMerged; AutoMergeNotActivated; NotDraft;
   RequiredLabelsPresent; AuthorAllowed; MergeableNotFalse; BaseHasRequiredChecks].

Definition head_repository (pr : Snapshot) : string :=
  match head_repo (head (fields pr)) with Some r => html_url r | None => "" end.

Definition author_login (pr : Snapshot) : string :=
  match user (fields pr) with
  | Some u => match login u with Some l => JS.toLowerCase l | None => "" end
  | None => ""
  end.

Definition has_label (pr : Snapshot) (label : string) : bool :=
  existsb (fun it => String.eqb (JS.toLowerCase (label_name it)) label) (labels (fields pr)).

Section Policy.

Variable inputs : Inputs.

(** Whether a predicate holds of a snapshot; [hasRequiredChecks] is the
    fact the cache (or the remote) gives for the base branch. *)
Definition holds (pr : Snapshot) (hasRequiredChecks : bool) (p : Predicate) : bool :=
  match p with
  | SameRepository =>
      String.eqb (html_url (base_repo (base (fields pr)))) (head_repository pr)
  | NotMerged => negb (JS.truthy_string (merged_at (fields pr)))
  | AutoMergeNotActivated =>
      match auto_merge (fields pr) with Some _ => false | None => true end
  | NotDraft => match draft (fields pr) with Some true => false | _ => true end
  | RequiredLabelsPresent =>
      (negb (JS.has_length (requiredLabels inputs))
       || forallb (has_label pr) (requiredLabels inputs))%bool
  | AuthorAllowed =>
      (negb (JS.has_length (authors inputs))
       || JS.includes (authors inputs) (author_login pr))%bool
  | MergeableNotFalse =>
      match mergeable_of pr with Some (Some false) => false | _ => true end
  | BaseHasRequiredChecks => hasRequiredChecks
  end.

(** The first predicate of the order that fails, if one does. *)
Definition first_failing (pr : Snapshot) (hasRequiredChecks : bool) : option Predicate :=
  List.find (fun p => negb (holds pr hasRequiredChecks p)) admission_order.

(** The reason given for a denial by each predicate. *)
Definition reason (prNumber : Z) (pr : Snapshot) (p : Predicate) : string :=
  "Skipping PR #" +:+ pretty prNumber +:+ ": " +:+
  match p with
  | SameRepository =>
      "base's repo " +:+ html_url (base_repo (base (fields pr)))
      +:+ " is different from head's repo " +:+ head_repository pr
  | NotMerged => "already merged"
  | AutoMergeNotActivated => "auto merge is already activated"
  | NotDraft => "draft"
  | RequiredLabelsPresent =>
      "doesn't have all required labels: " +:+ JS.join ", " (requiredLabels inputs)
  | AuthorAllowed =>
      "the author " +:+ author_login pr +:+ " if not one of: "
      +:+ JS.join ", " (authors inputs)
  | MergeableNotFalse => "not mergeable"
  | BaseHasRequiredChecks =>
      "the base branch '" +:+ base_ref (base (fields pr))
      +:+ "' doesn't have required status checks"
  end.

End Policy.

(** The arguments of the merge call for a snapshot. *)
Definition merge_args (context : Context) (inputs : Inputs) (prNumber : Z) (pr : Snapshot)
  : MergeArgs :=
  {| merge_owner := owner (context_repo context);
     merge_repo := repo (context_repo context);
     pull_number := prNumber;
     sha := head_sha (head (fields pr));
     merge_method :=
       if JS.nonempty (preferredMergeOption inputs)
       then Some (preferredMergeOption inputs) else None |}.

(** ** Notions used to state the properties *)

(** What is left of [processSnapshot] once the first seven checks have
    passed: the check of the base branch, and the merge. *)
Definition checkBranchAndMerge (octokit : Remote) (context : Context) (inputs : Inputs)
  (prNumber : Z) (pr : Snapshot) : Async unit :=
  hasRequiredChecks <-
    doesBranchHaveRequiredChecks octokit context (base_ref (base (fields pr))) ;;
  if negb hasRequiredChecks then
    core.warning (reason inputs prNumber pr BaseHasRequiredChecks)
  else
    core.warning ("Merging PR #" +:+ pretty prNumber) ;;
    if negb (dryRun inputs) then
      await (PullsMerge (merge_args context inputs prNumber pr))
        (fun h => pulls_merge octokit h (merge_args context inputs prNumber pr))
    else ret tt.

(** The fact about a branch, as the specification words it: protection is
    enabled and the list of required status checks is not empty. *)
Definition required_checks_enforced (branch : Branch) : Prop :=
  enabled (protection branch) = Some true /\
  exists r l,
    required_status_checks (protection branch) = Some r /\ checks r = Some l /\ l <> [].

(** Two strings that differ by the case of their letters at most. *)
Definition same_ignoring_case (a b : string) : Prop :=
  JS.toLowerCase a = JS.toLowerCase b.

(** What can happen between two moments of one run: an event is logged,
    the exit code is set, the fact about a branch is asked for, a PR is
    processed (against whatever the remote is at that time). *)
Inductive step : State -> State -> Prop :=
| step_event e s : step s (with_event e s)
| step_exitCode c s : step s (with_exitCode c s)
| step_lookup octokit context branchName s r s' :
    doesBranchHaveRequiredChecks octokit context branchName s = (r, s') -> step s s'
| step_processPr octokit context inputs prParam s r s' :
    processPr octokit context inputs prParam s = (r, s') -> step s s'.

Definition later : State -> State -> Prop := rtc step.

(** The [try]/[catch] of [run], around a computation. *)
Definition reporting_failure (m : Async unit) : Async unit :=
  try_catch m (fun error => core.setFailed error ;; throw error).

(** A computation that comes to an end whatever the state: it returns or
    throws. *)
Definition settles {A} (m : Async A) : Prop :=
  forall s, fst (m s) <> OutOfFuel.

Definition is_failed_call (e : Event) : Prop :=
  match e with Called _ (Some _) => True | _ => False end.

Definition is_call (e : Event) : Prop :=
  match e with Called _ _ => True | Wrote _ => False end.

Definition is_merge_call (e : Event) : Prop :=
  match e with Called (PullsMerge _) _ => True | _ => False end.

Definition is_start_of_processing (e : Event) : Prop :=
  match e with Wrote (StartGroup _) => True | _ => False end.

(** The title of the group in which a PR is processed. *)
Definition title (prNumber : Z) : string := "Processing PR #" +:+ pretty prNumber.

(** The titles of the groups opened in a log: one per PR processed. *)
Fixpoint processed (l : list Event) : list string :=
  match l with
  | [] => []
  | Wrote (StartGroup t) :: l' => t :: processed l'
  | _ :: l' => processed l'
  end.

(** A computation that behaves: it only adds to the log, keeps what the
    cache holds and the exit code, logs only events that are [allowed],
    and throws only the error of a remote call that was rejected, which
    is then the last call it issued and is followed by nothing but the
    closing of groups. *)
Definition ends_well {A} (r : Outcome A) (new : list Event) : Prop :=
  match r with
  | Thrown e =>
      exists pre c k,
        new = pre ++ Called c (Some e) :: repeat (Wrote EndGroup) k
        /\ Forall (fun ev => ~ is_failed_call ev) pre
  | _ => Forall (fun ev => ~ is_failed_call ev) new
  end.

Definition behaves {A} (allowed : Event -> Prop) (m : Async A) : Prop :=
  forall s r s',
    m s = (r, s') ->
    exists new,
      log s' = log s ++ new
      /\ doesBranchHaveRequiredChecksCache s ⊆ doesBranchHaveRequiredChecksCache s'
      /\ exitCode s' = exitCode s
      /\ Forall allowed new
      /\ ends_well r new.

(** ** Concrete data, used to run the definitions *)

Module Example.

Definition widgets : Repository := {| html_url := "https://github.com/acme/widgets" |}.


Definition acme : RepoRef := {| owner := "acme"; repo := "widgets" |}.

(** A PR that passes every check of the policy below. *)
Definition ready (n : Z) : PullRequestSimple :=
  {| number := n;
     base := {| base_ref := "main"; base_repo := widgets |};
     head := {| head_sha := "4f2a9c1"; head_repo := Some widgets |};
     merged_at := None;
     auto_merge := None;
     draft := Some false;
     labels := [ {| label_name := "Ready" |}; {| label_name := "Approved" |} ];
     user := Some {| login := Some "Octocat" |} |}.


Definition protected : Branch :=
  {| protection :=
       {| enabled := Some true;
          required_status_checks :=
            Some {| checks := Some [ {| check_context := "build" |} ] |} |} |}.

Definition unprotected : Branch :=
  {| protection := {| enabled := Some false; required_status_checks := None |} |}.

(** A remote with two open PRs on one page, whose branches are protected. *)
Definition octokit : Remote :=
  {| pulls_get := fun _ _ n => Resolved {| simple := ready n; mergeable := Some true |};
     repos_getBranch := fun _ _ _ => Resolved protected;
     pulls_list := fun _ _ _ => Resolved {| data := [ready 1; ready 2]; has_next := false |};
     pulls_merge := fun _ _ => Resolved tt |}.

(** The same, with branches that have no required checks. *)
Definition octokit_unprotected : Remote :=
  {| pulls_get := pulls_get octokit;
     repos_getBranch := fun _ _ _ => Resolved unprotected;
     pulls_list := pulls_list octokit;
     pulls_merge := pulls_merge octokit |}.

(** The same as [octokit], but merges are rejected. *)
Definition octokit_conflict : Remote :=
  {| pulls_get := pulls_get octokit;
     repos_getBranch := repos_getBranch octokit;
     pulls_list := pulls_list octokit;
     pulls_merge := fun _ _ => Rejected "Head branch was modified" |}.

Definition inputs : Inputs :=
  {| input_requiredLabels := "ready, approved";
     input_authors := "octocat; dependabot[bot]";
     input_preferredMergeOption := "squash";
     input_dryRun := "false" |}.

Definition inputs_dry : Inputs :=
  {| input_requiredLabels := "ready, approved";
     input_authors := "octocat; dependabot[bot]";
     input_preferredMergeOption := "";
     input_dryRun := "True" |}.

Definition no_policy : Inputs :=
  {| input_requiredLabels := "";
     input_authors := "";
     input_preferredMergeOption := "";
     input_dryRun := "" |}.

Definition on (name : string) (p : Payload) : Context :=
  {| eventName := name; payload := p; runId := 1000; context_repo := acme |}.

Definition check_run_event (id : Z) (action : string) (c : option string) (prs : list Z)
  : CheckRunCompleted :=
  {| check_run_action := action;
     check_run :=
       {| check_run_id := id;
          check_run_html_url := "https://github.com/acme/widgets/runs/1";
          conclusion := c;
          pull_requests := List.map (fun n => {| mini_number := n |}) prs |} |}.

(** As [ready], with one label only. *)
Definition only_ready : PullRequestSimple :=
  {| number := 4;
     base := {| base_ref := "main"; base_repo := widgets |};
     head := {| head_sha := "4f2a9c1"; head_repo := Some widgets |};
     merged_at := None;
     auto_merge := None;
     draft := Some false;
     labels := [ {| label_name := "Ready" |} ];
     user := Some {| login := Some "Octocat" |} |}.



(** As [ready], with the repository of the head gone (a deleted fork). *)
Definition orphan : PullRequestSimple :=
  {| number := 21;
     base := {| base_ref := "main"; base_repo := widgets |};
     head := {| head_sha := "4f2a9c1"; head_repo := None |};
     merged_at := None;
     auto_merge := None;
     draft := Some false;
     labels := [ {| label_name := "Ready" |}; {| label_name := "Approved" |} ];
     user := Some {| login := Some "Octocat" |} |}.


(** A check run of another workflow that completed with a failure, for
    PRs 7 and 8. *)
Definition failed_check : Context :=
  on "check_run" (CheckRunPayload (check_run_event 77 "completed" (Some "failure") [7; 8])).

End Example.

(** ** Further notions: the inputs *)

(** The list the source makes of an input: [requiredLabels] and [authors]
    are both this expression, on their own input. *)
Definition input_list (input : string) : list string :=
  List.filter (fun it => JS.nonempty it)
    (List.map (fun it => JS.toLowerCase (JS.trim it)) (JS.split input)).

(** Every character of a string passes a test. *)
Fixpoint all_chars (P : ascii -> bool) (s : string) : bool :=
  match s with
  | EmptyString => true
  | String c s' => (P c && all_chars P s')%bool
  end.

(** White space or a separator: an input made of such characters only
    holds no entry. *)
Definition is_blank (c : ascii) : bool := (JS.is_white c || JS.is_separator c)%bool.

(** An entry as the parsing leaves it: not empty, in lower case, without
    white space around it and without a separator in it. *)
Definition well_formed_entry (r : string) : Prop :=
  r <> ""
  /\ JS.toLowerCase r = r
  /\ JS.trim r = r
  /\ all_chars (fun c => negb (JS.is_separator c)) r = true.

(** ** Further notions: what a run leaves in its log *)

(** The branches asked for, in the order of the calls. *)
Fixpoint lookups (l : list Event) : list string :=
  match l with
  | [] => []
  | Called (ReposGetBranch _ b) _ :: l' => b :: lookups l'
  | _ :: l' => lookups l'
  end.

(** The merge calls issued, with their arguments. *)
Fixpoint merges (l : list Event) : list MergeArgs :=
  match l with
  | [] => []
  | Called (PullsMerge args) _ :: l' => args :: merges l'
  | _ :: l' => merges l'
  end.

Definition is_fetch_of_one (e : Event) : Prop :=
  match e with Called (PullsGet _ _) _ => True | _ => False end.

Definition is_listing (e : Event) : Prop :=
  match e with Called (PullsList _ _ _) _ => True | _ => False end.

(** Every merge call of a log comes right after the line that announces
    the merge of that PR. *)
Definition merges_are_announced (l : list Event) : Prop :=
  forall before args f after,
    l = before ++ Called (PullsMerge args) f :: after ->
    exists before',
      before = before' ++ [Wrote (Warning ("Merging PR #" +:+ pretty (pull_number args)))].

(** The open PRs a listing serves, page after page, when page [p] is
    always answered by [pages p]. *)
Fixpoint listing (pages : nat -> Page) (fuel page : nat) : list PullRequestSimple :=
  match fuel with
  | O => []
  | S fuel' =>
      data (pages page)
      ++ (if has_next (pages page) then listing pages fuel' (S page) else [])
  end.

(** An invariant of the computations of a run: [Inv] holds again when the
    computation returns, and [Exc] when it does not. *)
Definition preserves {A} (Inv Exc : State -> Prop) (m : Async A) : Prop :=
  forall s r s',
    m s = (r, s') -> Inv s ->
    match r with Returned _ => Inv s' | _ => Exc s' end.


Definition is_error (d : Diagnostic) : Prop :=
  match d with Error _ => True | _ => False end.

Definition is_error_line (e : Event) : Prop :=
  match e with Wrote (Error _) => True | _ => False end.

(** ** More concrete data *)

Module Outage.

(** A remote whose branch endpoint is down. *)
Definition octokit : Remote :=
  {| pulls_get := pulls_get Example.octokit;
     repos_getBranch := fun _ _ _ => Rejected "Service unavailable";
     pulls_list := pulls_list Example.octokit;
     pulls_merge := pulls_merge Example.octokit |}.

(** The listing of [Example.octokit], page by page. *)
Definition pages (page : nat) : Page :=
  {| data := [Example.ready 1; Example.ready 2]; has_next := false |}.


End Outage.

(** ** Further notions: two runs side by side *)

(** Two states that agree on all but the remote calls logged. *)
Definition agree (s1 s2 : State) : Prop :=
  doesBranchHaveRequiredChecksCache s1 = doesBranchHaveRequiredChecksCache s2
  /\ diagnostics s1 = diagnostics s2
  /\ exitCode s1 = exitCode s2.

(** Two computations that, from states that agree, end the same way in
    states that agree. *)
Definition simulates {A} (m1 m2 : Async A) : Prop :=
  forall s1 s2,
    agree s1 s2 -> fst (m1 s1) = fst (m2 s2) /\ agree (snd (m1 s1)) (snd (m2 s2)).

(** A remote whose reads do not change during the run and whose merges
    succeed. *)
Definition steady (octokit : Remote) : Prop :=
  (forall h h' r n, pulls_get octokit h r n = pulls_get octokit h' r n)
  /\ (forall h h' r b, repos_getBranch octokit h r b = repos_getBranch octokit h' r b)
  /\ (forall h h' r p, pulls_list octokit h r p = pulls_list octokit h' r p)
  /\ (forall h args, pulls_merge octokit h args = Resolved tt).

(** ** The string built-ins in full

    [JS.toLowerCase] and [JS.trim] above are the built-ins on ASCII text.
    On other text [String.prototype.toLowerCase] lowers every cased letter
    and [String.prototype.trim] strips every Unicode space; what they do
    there is not computed here.  [Full.Strings] stands for the built-ins
    themselves: any two functions that do on ASCII text what the ASCII
    definitions do.  The code that calls them is embedded again over such
    a pair, for the properties that are about case and white space. *)

Definition is_ascii (c : ascii) : bool := (nat_of_ascii c <? 128)%nat.

Module Full.

Record Strings := {
  toLowerCase : string -> string;
  trim : string -> string;
  toLowerCase_ascii :
    forall s, all_chars is_ascii s = true -> toLowerCase s = JS.toLowerCase s;
  trim_ascii :
    forall s, all_chars is_ascii s = true -> trim s = JS.trim s
}.

(** The ASCII definitions are such a pair. *)
Definition ascii_only : Strings :=
  {| toLowerCase := JS.toLowerCase;
     trim := JS.trim;
     toLowerCase_ascii := fun _ _ => eq_refl;
     trim_ascii := fun _ _ => eq_refl |}.

Section Main.

Variable js : Strings.
Variable octokit : Remote.
Variable context : Context.
Variable inputs : Inputs.

Definition requiredLabels : list string :=
  List.filter (fun it => JS.nonempty it)
    (List.map (fun it => toLowerCase js (trim js it))
       (JS.split (input_requiredLabels inputs))).

Definition authors : list string :=
  List.filter (fun it => JS.nonempty it)
    (List.map (fun it => toLowerCase js (trim js it))
       (JS.split (input_authors inputs))).

Definition dryRun : bool := String.eqb (toLowerCase js (input_dryRun inputs)) "true".

(** The callback of [core.group] in [processPr] from the point where [pr]
    is bound, as [processSnapshot] above, over the built-ins [js]. *)
Definition processSnapshot (prNumber : Z) (pr : Snapshot) : Async unit :=
  let baseRepo := html_url (base_repo (base (fields pr))) in
  let headRepo :=
    match head_repo (head (fields pr)) with
    | Some r => html_url r
    | None => ""
    end in
  if negb (String.eqb baseRepo headRepo) then
    core.warning ("Skipping PR #" +:+ pretty prNumber +:+ ": base's repo " +:+ baseRepo
                  +:+ " is different from head's repo " +:+ headRepo)
  else if JS.truthy_string (merged_at (fields pr)) then
    core.warning ("Skipping PR #" +:+ pretty prNumber +:+ ": already merged")
  else if (match auto_merge (fields pr) with Some _ => true | None => false end) then
    core.warning ("Skipping PR #" +:+ pretty prNumber
                  +:+ ": auto merge is already activated")
  else if (match draft (fields pr) with Some true => true | _ => false end) then
    core.warning ("Skipping PR #" +:+ pretty prNumber +:+ ": draft")
  else if (JS.has_length requiredLabels
           && negb (forallb (fun label =>
                               existsb (fun it =>
                                          String.eqb (toLowerCase js (label_name it)) label)
                                 (labels (fields pr)))
                      requiredLabels))%bool then
    core.warning ("Skipping PR #" +:+ pretty prNumber
                  +:+ ": doesn't have all required labels: "
                  +:+ JS.join ", " requiredLabels)
  else
    let author :=
      match user (fields pr) with
      | Some u => match login u with Some l => toLowerCase js l | None => "" end
      | None => ""
      end in
    if (JS.has_length authors && negb (JS.includes authors author))%bool then
      core.warning ("Skipping PR #" +:+ pretty prNumber +:+ ": the author " +:+ author
                    +:+ " if not one of: " +:+ JS.join ", " authors)
    else if (match mergeable_of pr with Some (Some false) => true | _ => false end) then
      core.warning ("Skipping PR #" +:+ pretty prNumber +:+ ": not mergeable")
    else
      hasRequiredChecks <-
        doesBranchHaveRequiredChecks octokit context (base_ref (base (fields pr))) ;;
      if negb hasRequiredChecks then
        core.warning ("Skipping PR #" +:+ pretty prNumber +:+ ": the base branch '"
                      +:+ base_ref (base (fields pr))
                      +:+ "' doesn't have required status checks")
      else
        core.warning ("Merging PR #" +:+ pretty prNumber) ;;
        if negb dryRun then
          await (PullsMerge (merge_args context inputs prNumber pr))
            (fun h => pulls_merge octokit h (merge_args context inputs prNumber pr))
        else ret tt.

End Main.

(** The admission policy over the built-ins [js]: [holds], [first_failing]
    and [reason] as above. *)
Definition author_login (js : Strings) (pr : Snapshot) : string :=
  match user (fields pr) with
  | Some u => match login u with Some l => toLowerCase js l | None => "" end
  | None => ""
  end.

Definition has_label (js : Strings) (pr : Snapshot) (label : string) : bool :=
  existsb (fun it => String.eqb (toLowerCase js (label_name it)) label) (labels (fields pr)).

Definition holds (js : Strings) (inputs : Inputs) (pr : Snapshot) (hasRequiredChecks : bool)
  (p : Predicate) : bool :=
  match p with
  | SameRepository =>
      String.eqb (html_url (base_repo (base (fields pr)))) (head_repository pr)
  | NotMerged => negb (JS.truthy_string (merged_at (fields pr)))
  | AutoMergeNotActivated =>
      match auto_merge (fields pr) with Some _ => false | None => true end
  | NotDraft => match draft (fields pr) with Some true => false | _ => true end
  | RequiredLabelsPresent =>
      (negb (JS.has_length (requiredLabels js inputs))
       || forallb (has_label js pr) (requiredLabels js inputs))%bool
  | AuthorAllowed =>
      (negb (JS.has_length (authors js inputs))
       || JS.includes (authors js inputs) (author_login js pr))%bool
  | MergeableNotFalse =>
      match mergeable_of pr with Some (Some false) => false | _ => true end
  | BaseHasRequiredChecks => hasRequiredChecks
  end.

Definition first_failing (js : Strings) (inputs : Inputs) (pr : Snapshot)
  (hasRequiredChecks : bool) : option Predicate :=
  List.find (fun p => negb (holds js inputs pr hasRequiredChecks p)) admission_order.

Definition reason (js : Strings) (inputs : Inputs) (prNumber : Z) (pr : Snapshot)
  (p : Predicate) : string :=
  "Skipping PR #" +:+ pretty prNumber +:+ ": " +:+
  match p with
  | SameRepository =>
      "base's repo " +:+ html_url (base_repo (base (fields pr)))
      +:+ " is different from head's repo " +:+ head_repository pr
  | NotMerged => "already merged"
  | AutoMergeNotActivated => "auto merge is already activated"
  | NotDraft => "draft"
  | RequiredLabelsPresent =>
      "doesn't have all required labels: " +:+ JS.join ", " (requiredLabels js inputs)
  | AuthorAllowed =>
      "the author " +:+ author_login js pr +:+ " if not one of: "
      +:+ JS.join ", " (authors js inputs)
  | MergeableNotFalse => "not mergeable"
  | BaseHasRequiredChecks =>
      "the base branch '" +:+ base_ref (base (fields pr))
      +:+ "' doesn't have required status checks"
  end.

(** What is left of [processSnapshot] once the first seven checks have
    passed. *)
Definition checkBranchAndMerge (js : Strings) (octokit : Remote) (context : Context)
  (inputs : Inputs) (prNumber : Z) (pr : Snapshot) : Async unit :=
  hasRequiredChecks <-
    doesBranchHaveRequiredChecks octokit context (base_ref (base (fields pr))) ;;
  if negb hasRequiredChecks then
    core.warning (reason js inputs prNumber pr BaseHasRequiredChecks)
  else
    core.warning ("Merging PR #" +:+ pretty prNumber) ;;
    if negb (dryRun js inputs) then
      await (PullsMerge (merge_args context inputs prNumber pr))
        (fun h => pulls_merge octokit h (merge_args context inputs prNumber pr))
    else ret tt.

(** The entries of a list input as they are written: the pieces between
    separators, trimmed, but for those that are empty in lower case. *)
Definition configured (js : Strings) (input : string) : list string :=
  List.filter (fun p => JS.nonempty (toLowerCase js p))
    (List.map (trim js) (JS.split input)).

(** Two strings that differ by the case of their letters at most. *)
Definition same_ignoring_case (js : Strings) (a b : string) : Prop :=
  toLowerCase js a = toLowerCase js b.

(** An entry as the parsing leaves it. *)
Definition well_formed_entry (js : Strings) (r : string) : Prop :=
  r <> ""
  /\ toLowerCase js r = r
  /\ trim js r = r
  /\ all_chars (fun c => negb (JS.is_separator c)) r = true.

End Full.

(** Two labels spelt in another case than the entries of [Example.inputs]. *)
Definition shouted_labels (n : Z) : PullRequestSimple :=
  {| number := n;
     base := base (Example.ready n);
     head := head (Example.ready n);
     merged_at := None;
     auto_merge := None;
     draft := Some false;
     labels := [ {| label_name := "Ready" |}; {| label_name := "APPROVED" |} ];
     user := user (Example.ready n) |}.

(** ** Basic facts about strings *)

Lemma append_cancel_l (p a b : string) : p +:+ a = p +:+ b -> a = b.
Proof.
  induction p as [|c p IH]; intros H; [exact H|].
  injection H as H. auto.
Qed.


(** ** The evaluation of one snapshot *)

Section Evaluation.

Variable octokit : Remote.
Variable context : Context.
Variable inputs : Inputs.

(** A snapshot that fails one of the first seven predicates is denied on
    the spot, for the first that fails. *)
Lemma processSnapshot_denied n pr b p s :
  first_failing inputs pr b = Some p ->
  p <> BaseHasRequiredChecks ->
  processSnapshot octokit context inputs n pr s
  = (Returned tt, with_diagnostic (Warning (reason inputs n pr p)) s).
Proof.
  unfold first_failing, processSnapshot, reason. simpl.
  fold (head_repository pr). fold (author_login pr).
  destruct (String.eqb _ (head_repository pr)); simpl;
    [|intros [= <-] _; reflexivity].
  destruct (JS.truthy_string _); simpl; [intros [= <-] _; reflexivity|].
  destruct (auto_merge _); simpl; [intros [= <-] _; reflexivity|].
  destruct (draft _) as [[]|]; simpl; try (intros [= <-] _; reflexivity).
  all: fold (has_label pr).
  all: destruct (JS.has_length (requiredLabels inputs)); simpl.
  all: try (destruct (forallb _ _); simpl; [|intros [= <-] _; reflexivity]).
  all: destruct (JS.has_length (authors inputs)); simpl.
  all: try (destruct (JS.includes _ _); simpl; [|intros [= <-] _; reflexivity]).
  all: destruct (mergeable_of pr) as [[[]|]|]; simpl; try (intros [= <-] _; reflexivity).
  all: destruct b; simpl; try discriminate; intros [= <-] Hp; now elim Hp.
Qed.

(** A snapshot that passes the first seven is decided by the fact about
    its base branch. *)
Lemma processSnapshot_passed n pr s :
  first_failing inputs pr true = None ->
  processSnapshot octokit context inputs n pr s
  = checkBranchAndMerge octokit context inputs n pr s.
Proof.
  unfold first_failing, processSnapshot, reason. simpl.
  fold (head_repository pr). fold (author_login pr).
  destruct (String.eqb _ (head_repository pr)); simpl; [|discriminate].
  destruct (JS.truthy_string _); simpl; [discriminate|].
  destruct (auto_merge _); simpl; [discriminate|].
  destruct (draft _) as [[]|]; simpl; try discriminate.
  all: fold (has_label pr).
  all: destruct (JS.has_length (requiredLabels inputs)); simpl.
  all: try (destruct (forallb _ _); simpl; [|discriminate]).
  all: destruct (JS.has_length (authors inputs)); simpl.
  all: try (destruct (JS.includes _ _); simpl; [|discriminate]).
  all: destruct (mergeable_of pr) as [[[]|]|]; simpl; try discriminate.
  all: intros _; reflexivity.
Qed.

End Evaluation.

(** ** The cache of branch facts *)

Lemma branch_has_required_checks_spec branch :
  branch_has_required_checks branch = true <-> required_checks_enforced branch.
Proof.
  unfold branch_has_required_checks, required_checks_enforced.
  destruct (enabled (protection branch)) as [[]|];
    [|split; [discriminate|intros [[=] _]]..].
  destruct (required_status_checks (protection branch)) as [r|].
  - destruct (checks r) as [l|] eqn:Hl.
    + destruct l as [|x l]; simpl.
      * split; [discriminate|]. intros (_ & r' & l' & [= <-] & Hl' & Hne).
        rewrite Hl in Hl'. now injection Hl' as <-.
      * split; [|reflexivity]. intros _. split; [reflexivity|].
        exists r, (x :: l). repeat split; [assumption|discriminate].
    + split; [discriminate|]. intros (_ & r' & l' & [= <-] & Hl' & _).
      rewrite Hl in Hl'. discriminate.
  - split; [discriminate|]. intros (_ & r' & l' & [=] & _).
Qed.

Section Cache.

Variable octokit : Remote.
Variable context : Context.

Lemma doesBranchHaveRequiredChecks_hit branchName s v :
  doesBranchHaveRequiredChecksCache s !! branchName = Some v ->
  doesBranchHaveRequiredChecks octokit context branchName s = (Returned v, s).
Proof.
  intros H. unfold doesBranchHaveRequiredChecks, bind, cache_get. now rewrite H.
Qed.

Lemma doesBranchHaveRequiredChecks_miss branchName s :
  doesBranchHaveRequiredChecksCache s !! branchName = None ->
  doesBranchHaveRequiredChecks octokit context branchName s
  = match repos_getBranch octokit (calls s) (context_repo context) branchName with
    | Resolved branch =>
        (Returned (branch_has_required_checks branch),
         with_cache (<[branchName := branch_has_required_checks branch]>
                       (doesBranchHaveRequiredChecksCache s))
           (with_event (Called (ReposGetBranch (context_repo context) branchName) None) s))
    | Rejected e =>
        (Thrown e,
         with_event (Called (ReposGetBranch (context_repo context) branchName) (Some e)) s)
    end.
Proof.
  intros H. unfold doesBranchHaveRequiredChecks, bind, cache_get. rewrite H.
  unfold await. destruct (repos_getBranch _ _ _ _); reflexivity.
Qed.

(** A value that was returned is in the cache from then on. *)
Lemma doesBranchHaveRequiredChecks_stores branchName s v s' :
  doesBranchHaveRequiredChecks octokit context branchName s = (Returned v, s') ->
  doesBranchHaveRequiredChecksCache s' !! branchName = Some v.
Proof.
  destruct (doesBranchHaveRequiredChecksCache s !! branchName) as [w|] eqn:Hc.
  - rewrite (doesBranchHaveRequiredChecks_hit _ _ _ Hc). now intros [= <- <-].
  - rewrite (doesBranchHaveRequiredChecks_miss _ _ Hc).
    destruct (repos_getBranch _ _ _ _); [|discriminate].
    intros [= <- <-]. simpl. apply lookup_insert_eq.
Qed.

End Cache.

(** ** Computations that behave *)

Lemma bind_ret {A B} (a : A) (k : A -> Async B) s : bind (ret a) k s = k a s.
Proof. reflexivity. Qed.

Lemma clean_repeat_EndGroup k :
  Forall (fun ev => ~ is_failed_call ev) (repeat (Wrote EndGroup) k).
Proof. induction k; simpl; constructor; auto. Qed.

Section Behaves.

Variable allowed : Event -> Prop.

Lemma behaves_ret {A} (a : A) : behaves allowed (ret a).
Proof.
  intros s r s' [= <- <-]. exists []. rewrite app_nil_r.
  repeat split; try constructor; reflexivity.
Qed.

Lemma behaves_out_of_fuel {A} : behaves allowed (@out_of_fuel A).
Proof.
  intros s r s' [= <- <-]. exists []. rewrite app_nil_r.
  repeat split; try constructor; reflexivity.
Qed.

Lemma behaves_write d : allowed (Wrote d) -> behaves allowed (core.write d).
Proof.
  intros Hd s r s' [= <- <-]. exists [Wrote d].
  repeat split; try reflexivity; repeat constructor; auto.
Qed.

Lemma behaves_await {A} c (answer : list Interaction -> Response A) :
  (forall f, allowed (Called c f)) -> behaves allowed (await c answer).
Proof.
  intros Hc s r s'. unfold await.
  destruct (answer (calls s)) as [a|e]; intros [= <- <-].
  - exists [Called c None]. repeat split; try reflexivity; repeat constructor; auto.
  - exists [Called c (Some e)]. repeat split; try reflexivity.
    + repeat constructor; auto.
    + exists [], c, 0%nat. split; [reflexivity|constructor].
Qed.

Lemma behaves_bind {A B} (m : Async A) (k : A -> Async B) :
  behaves allowed m -> (forall a, behaves allowed (k a)) -> behaves allowed (bind m k).
Proof.
  intros Hm Hk s r s'. unfold bind.
  destruct (m s) as [r1 s1] eqn:E1.
  destruct (Hm _ _ _ E1) as (new1 & L1 & C1 & X1 & A1 & W1).
  destruct r1 as [a|e|].
  - intros E2. destruct (Hk a _ _ _ E2) as (new2 & L2 & C2 & X2 & A2 & W2).
    exists (new1 ++ new2). rewrite L2, L1, app_assoc. split; [reflexivity|].
    split; [etrans; eassumption|]. split; [congruence|].
    split; [apply Forall_app; auto|].
    destruct r as [b|e|]; simpl in *.
    + apply Forall_app; auto.
    + destruct W2 as (pre & c & n & -> & Hpre).
      exists (new1 ++ pre), c, n. rewrite app_assoc. split; [reflexivity|].
      apply Forall_app; auto.
    + apply Forall_app; auto.
  - intros [= <- <-]. exists new1. auto.
  - intros [= <- <-]. exists new1. auto.
Qed.

Lemma behaves_group {A} title (m : Async A) :
  allowed (Wrote (StartGroup title)) -> allowed (Wrote EndGroup) ->
  behaves allowed m -> behaves allowed (core.group title m).
Proof.
  intros Hstart Hend Hm. unfold core.group.
  apply behaves_bind; [now apply behaves_write|].
  intros _ s r s'. unfold try_finally.
  destruct (m s) as [r1 s1] eqn:E1.
  destruct (Hm _ _ _ E1) as (new1 & L1 & C1 & X1 & A1 & W1).
  destruct r1 as [a|e|]; intros [= <- <-].
  - exists (new1 ++ [Wrote EndGroup]). simpl. rewrite L1, app_assoc.
    repeat split; auto.
    + apply Forall_app; split; [assumption|]. repeat constructor; auto.
    + apply Forall_app; split; [assumption|]. repeat constructor; auto.
  - exists (new1 ++ [Wrote EndGroup]). simpl. rewrite L1, app_assoc.
    repeat split; auto.
    + apply Forall_app; split; [assumption|]. repeat constructor; auto.
    + destruct W1 as (pre & c & n & -> & Hpre).
      exists pre, c, (S n). split; [|assumption].
      rewrite <- app_assoc. simpl. now rewrite <- repeat_cons.
  - exists new1. auto.
Qed.

Lemma behaves_for_of {A} (l : list A) (body : A -> Async unit) :
  (forall x, behaves allowed (body x)) -> behaves allowed (for_of l body).
Proof.
  intros Hb. induction l as [|x l IH]; simpl.
  - apply behaves_ret.
  - apply behaves_bind; auto.
Qed.

End Behaves.

Section BehavesMain.

Variable octokit : Remote.
Variable context : Context.
Variable inputs : Inputs.

Variable allowed : Event -> Prop.
Hypothesis allowed_warning : forall message, allowed (Wrote (Warning message)).
Hypothesis allowed_reads : forall c f, ~ is_merge_call (Called c f) -> allowed (Called c f).
Hypothesis allowed_merge :
  dryRun inputs = false -> forall args f, allowed (Called (PullsMerge args) f).

Lemma behaves_doesBranchHaveRequiredChecks branchName :
  behaves allowed (doesBranchHaveRequiredChecks octokit context branchName).
Proof using allowed_reads.
  intros s r s'.
  destruct (doesBranchHaveRequiredChecksCache s !! branchName) as [v|] eqn:Hc.
  - rewrite (doesBranchHaveRequiredChecks_hit _ _ _ _ _ Hc). intros [= <- <-].
    exists []. rewrite app_nil_r. repeat split; try constructor; reflexivity.
  - rewrite (doesBranchHaveRequiredChecks_miss _ _ _ _ Hc).
    destruct (repos_getBranch _ _ _ _) as [branch|e]; intros [= <- <-].
    + exists [Called (ReposGetBranch (context_repo context) branchName) None].
      simpl. split; [reflexivity|]. split; [now apply insert_subseteq|].
      split; [reflexivity|]. split.
      * repeat constructor. apply allowed_reads. simpl. auto.
      * repeat constructor. simpl. auto.
    + exists [Called (ReposGetBranch (context_repo context) branchName) (Some e)].
      simpl. split; [reflexivity|]. split; [reflexivity|]. split; [reflexivity|].
      split.
      * repeat constructor. apply allowed_reads. simpl. auto.
      * exists [], (ReposGetBranch (context_repo context) branchName), 0%nat.
        split; [reflexivity|constructor].
Qed.

Lemma behaves_processSnapshot n pr :
  behaves allowed (processSnapshot octokit context inputs n pr).
Proof using allowed_warning allowed_reads allowed_merge.
  unfold processSnapshot, core.warning. cbv zeta.
  repeat match goal with
    | |- behaves _ (if ?b then _ else _) => destruct b
    | |- behaves _ (core.write _) => apply behaves_write; apply allowed_warning
    end.
  apply behaves_bind; [apply behaves_doesBranchHaveRequiredChecks|].
  intros has. destruct (negb has); [apply behaves_write; apply allowed_warning|].
  apply behaves_bind; [apply behaves_write; apply allowed_warning|]. intros _.
  destruct (dryRun inputs) eqn:Hdry; simpl.
  - apply behaves_ret.
  - apply behaves_await. intros f. now apply allowed_merge.
Qed.

(** The callback of the group in [processPr]. *)
Lemma behaves_processPr_callback prParam n :
  behaves allowed
    (pr <- match prParam with
           | ByValue pr => ret pr
           | ByNumber _ =>
               it <- await (PullsGet (context_repo context) n)
                       (fun h => pulls_get octokit h (context_repo context) n) ;;
               ret (Full it)
           end ;;
     processSnapshot octokit context inputs n pr).
Proof using allowed_warning allowed_reads allowed_merge.
  apply behaves_bind; [|intros pr; apply behaves_processSnapshot].
  destruct prParam as [pr|m].
  - apply behaves_ret.
  - apply behaves_bind; [|intros it; apply behaves_ret].
    apply behaves_await. intros f. apply allowed_reads. simpl. auto.
Qed.

Hypothesis allowed_debug : forall message, allowed (Wrote (Debug message)).
Hypothesis allowed_start : forall title, allowed (Wrote (StartGroup title)).
Hypothesis allowed_end : allowed (Wrote EndGroup).

Lemma behaves_processPr prParam :
  behaves allowed (processPr octokit context inputs prParam).
Proof using allowed_warning allowed_reads allowed_merge allowed_start allowed_end.
  unfold processPr. apply behaves_group; [apply allowed_start|apply allowed_end|].
  apply behaves_processPr_callback.
Qed.

Lemma behaves_processPages fuel page :
  behaves allowed (processPages octokit context inputs fuel page).
Proof using allowed_warning allowed_reads allowed_merge allowed_start allowed_end.
  revert page. induction fuel as [|fuel IH]; intros page; simpl.
  - apply behaves_out_of_fuel.
  - apply behaves_bind.
    + apply behaves_await. intros f. apply allowed_reads. simpl. auto.
    + intros response. apply behaves_bind.
      * apply behaves_for_of. intros pr. apply behaves_processPr.
      * intros _. destruct (has_next response); [apply IH|apply behaves_ret].
Qed.

Lemma behaves_processAllPrs fuel :
  behaves allowed (processAllPrs octokit context inputs fuel).
Proof using allowed_warning allowed_reads allowed_merge allowed_start allowed_end.
  apply behaves_processPages.
Qed.

Lemma behaves_processCheckRunCompletedEvent event :
  behaves allowed (processCheckRunCompletedEvent octokit context inputs event).
Proof using All.
  unfold processCheckRunCompletedEvent, core.debug.
  repeat match goal with
    | |- behaves _ (if ?b then _ else _) => destruct b
    | |- behaves _ (core.write _) => apply behaves_write; apply allowed_debug
    end.
  apply behaves_for_of. intros prMini. apply behaves_processPr.
Qed.

Lemma behaves_processDeploymentStatusCreated fuel event :
  behaves allowed (processDeploymentStatusCreated octokit context inputs fuel event).
Proof using All.
  unfold processDeploymentStatusCreated, core.debug.
  destruct (negb _); [apply behaves_write, allowed_debug|apply behaves_processAllPrs].
Qed.

End BehavesMain.

(** ** The first failing predicate and what is logged *)

Lemma with_diagnostic_inj d d' s : with_diagnostic d s = with_diagnostic d' s -> d = d'.
Proof.
  unfold with_diagnostic, with_event. intros [= H].
  apply app_inv_head in H. now injection H.
Qed.

Lemma logged_warning_inj (l : list Event) a b :
  l ++ [Wrote (Warning a)] = l ++ [Wrote (Warning b)] -> a = b.
Proof. intros H. apply app_inv_head in H. congruence. Qed.

Section FirstFailing.

Variable inputs : Inputs.



Lemma first_failing_holds_base pr p :
  first_failing inputs pr true = Some p -> p <> BaseHasRequiredChecks.
Proof.
  unfold first_failing. simpl.
  repeat match goal with
    | |- context [negb ?c] => destruct c; simpl
    end;
    intros [= <-]; discriminate.
Qed.

End FirstFailing.

Section Reasons.

Variable octokit : Remote.
Variable context : Context.
Variable inputs : Inputs.


End Reasons.

(** ** The order of the admission predicates *)

Lemma find_first {A} (f : A -> bool) l x :
  List.find f l = Some x ->
  exists before after,
    l = before ++ x :: after /\ f x = true /\ Forall (fun y => f y = false) before.
Proof.
  induction l as [|y l IH]; simpl; [discriminate|].
  destruct (f y) eqn:Hy.
  - intros [= <-]. exists [], l. repeat split; [assumption|constructor].
  - intros H. destruct (IH H) as (before & after & -> & Hx & Hb).
    exists (y :: before), after. repeat split; [assumption|]. now constructor.
Qed.



(** ** The cache within one run *)

(** Whatever happens later in a run, the cache keeps what it holds. *)
Lemma later_keeps_cache s s' :
  later s s' -> doesBranchHaveRequiredChecksCache s ⊆ doesBranchHaveRequiredChecksCache s'.
Proof.
  induction 1 as [s|s s1 s' Hstep _ IH]; [reflexivity|].
  etrans; [|exact IH]. clear IH.
  destruct Hstep as [e s|c s|octokit context b s r s1 H|octokit context inputs p s r s1 H].
  - reflexivity.
  - reflexivity.
  - apply (behaves_doesBranchHaveRequiredChecks octokit context (fun _ => True)) in H;
      [|intros; exact I].
    destruct H as (new & _ & Hc & _). exact Hc.
  - apply (behaves_processPr octokit context inputs (fun _ => True)) in H;
      try (intros; exact I).
    destruct H as (new & _ & Hc & _). exact Hc.
Qed.

(** C3: a call that misses the cache returns true iff the branch fetched has
    protection enabled and a non-empty list of required status checks; and
    once a call for a branch has returned, every later call of the run for
    the same branch returns the same value and leaves the state as it is
    (the log gets no remote call), whatever the remote would answer then. *)
Theorem required_checks_fact_is_cached octokit context branchName s v s1 :
  doesBranchHaveRequiredChecks octokit context branchName s = (Returned v, s1) ->
  (doesBranchHaveRequiredChecksCache s !! branchName = None ->
   exists branch,
     repos_getBranch octokit (calls s) (context_repo context) branchName = Resolved branch
     /\ (v = true <-> required_checks_enforced branch)
     /\ log s1 = log s ++ [Called (ReposGetBranch (context_repo context) branchName) None])
  /\ (forall octokit' context' s2,
        later s1 s2 ->
        doesBranchHaveRequiredChecks octokit' context' branchName s2 = (Returned v, s2)).
Proof.
  intros H. split.
  - intros Hmiss. rewrite (doesBranchHaveRequiredChecks_miss _ _ _ _ Hmiss) in H.
    destruct (repos_getBranch _ _ _ _) as [branch|e]; [|discriminate].
    injection H as <- <-. exists branch. split; [reflexivity|].
    split; [apply branch_has_required_checks_spec|reflexivity].
  - intros octokit' context' s2 Hlater.
    apply doesBranchHaveRequiredChecks_hit.
    apply doesBranchHaveRequiredChecks_stores in H.
    eapply lookup_weaken; [exact H|]. now apply later_keeps_cache.
Qed.

Lemma required_checks_fact_is_cached_witness :
  let context := Example.on "push" OtherPayload in
  let s1 := snd (doesBranchHaveRequiredChecks Example.octokit context "main" initial) in
  let s2 := snd (processPr Example.octokit context Example.inputs (ByNumber 5) s1) in
  fst (doesBranchHaveRequiredChecks Example.octokit context "main" initial) = Returned true
  /\ doesBranchHaveRequiredChecks Example.octokit_unprotected context "main" s2
     = (Returned true, s2).
Proof.
  intros context s1 s2. split; [reflexivity|].
  apply (proj2 (required_checks_fact_is_cached Example.octokit context "main" initial
                  true s1 eq_refl)).
  apply rtc_once.
  apply (step_processPr Example.octokit context Example.inputs (ByNumber 5) s1
           (fst (processPr Example.octokit context Example.inputs (ByNumber 5) s1))).
  apply surjective_pairing.
Defined.

(** ** Which PRs are processed *)

Lemma processed_app l1 l2 : processed (l1 ++ l2) = processed l1 ++ processed l2.
Proof.
  induction l1 as [|[c f|[]] l1 IH]; simpl; try assumption; [reflexivity|].
  now rewrite IH.
Qed.

Lemma processed_none l :
  Forall (fun e => ~ is_start_of_processing e) l -> processed l = [].
Proof.
  induction 1 as [|[c f|[]] l Hx _ IH]; simpl; try assumption; [reflexivity|].
  now elim Hx.
Qed.

Section Processed.

Variable octokit : Remote.
Variable context : Context.
Variable inputs : Inputs.

(** Processing a PR opens one group, under the title of that PR. *)
Lemma processPr_processed prParam s r s' :
  processPr octokit context inputs prParam s = (r, s') ->
  processed (log s')
  = processed (log s)
    ++ [title match prParam with ByNumber n => n | ByValue pr => number (fields pr) end].
Proof.
  unfold processPr, core.group, bind at 1, core.write, try_finally.
  set (n := match prParam with ByNumber n => n | ByValue pr => number (fields pr) end).
  set (s0 := with_diagnostic (StartGroup ("Processing PR #" +:+ pretty n)) s).
  match goal with |- context [let (_, _) := ?m s0 in _] => destruct (m s0) as [r1 s1] eqn:E end.
  apply (behaves_processPr_callback octokit context inputs
           (fun e => ~ is_start_of_processing e)) in E;
    try (intros; simpl; tauto).
  destruct E as (new & L & _ & _ & Hnew & _).
  assert (processed (log s1) = processed (log s) ++ [title n]) as Hs1.
  { rewrite L. unfold s0. simpl. rewrite !processed_app, (processed_none _ Hnew).
    simpl. now rewrite app_nil_r. }
  destruct r1; intros [= <- <-]; simpl; rewrite ?processed_app, Hs1; simpl;
    now rewrite ?app_nil_r.
Qed.

Lemma for_of_processPr_processed (numbers : list Z) s r s' :
  for_of numbers (fun n => processPr octokit context inputs (ByNumber n)) s = (r, s') ->
  exists done,
    processed (log s') = processed (log s) ++ List.map title done
    /\ done `prefix_of` numbers
    /\ (r = Returned tt -> done = numbers).
Proof.
  revert s. induction numbers as [|n numbers IH]; intros s; simpl.
  - intros [= <- <-]. exists []. rewrite app_nil_r. repeat split. reflexivity.
  - unfold bind at 1.
    destruct (processPr octokit context inputs (ByNumber n) s) as [r1 s1] eqn:E1.
    apply processPr_processed in E1.
    destruct r1 as [[]|e|].
    + intros E2. destruct (IH _ E2) as (done & P & Hpre & Hall).
      exists (n :: done). rewrite P, E1, <- app_assoc. split; [reflexivity|].
      split; [now apply prefix_cons|]. intros Hr. now rewrite (Hall Hr).
    + intros [= <- <-]. exists [n]. split; [assumption|].
      split; [apply prefix_cons, prefix_nil|discriminate].
    + intros [= <- <-]. exists [n]. split; [assumption|].
      split; [apply prefix_cons, prefix_nil|discriminate].
Qed.

Lemma for_of_map {A B} (f : A -> B) (l : list A) (body : B -> Async unit) :
  for_of (List.map f l) body = for_of l (fun x => body (f x)).
Proof. induction l as [|x l IH]; simpl; [reflexivity|]. now rewrite IH. Qed.

End Processed.

Section CheckRunGate.

Variable octokit : Remote.
Variable context : Context.
Variable inputs : Inputs.

Lemma processCheckRunCompletedEvent_closed event s :
  ~ (check_run_id (check_run event) <> runId context
     /\ check_run_action event = "completed"
     /\ (conclusion (check_run event) = Some "success"
         \/ conclusion (check_run event) = Some "skipped")) ->
  exists message,
    processCheckRunCompletedEvent octokit context inputs event s
    = (Returned tt, with_diagnostic (Debug message) s).
Proof.
  intros Hgate. unfold processCheckRunCompletedEvent, core.debug, core.write.
  destruct (Z.eqb_spec (check_run_id (check_run event)) (runId context)) as [E|Hown];
    [eexists; reflexivity|].
  destruct (String.eqb_spec (check_run_action event) "completed") as [Hc|_]; simpl;
    [|eexists; reflexivity].
  destruct (conclusion (check_run event)) as [c|] eqn:Hcon; simpl;
    [|eexists; reflexivity].
  destruct (String.eqb_spec c "success") as [->|_]; simpl; [elim Hgate; auto|].
  destruct (String.eqb_spec c "skipped") as [->|_]; simpl; [elim Hgate; auto|].
  eexists; reflexivity.
Qed.

Lemma processCheckRunCompletedEvent_open event s :
  check_run_id (check_run event) <> runId context ->
  check_run_action event = "completed" ->
  conclusion (check_run event) = Some "success"
  \/ conclusion (check_run event) = Some "skipped" ->
  processCheckRunCompletedEvent octokit context inputs event s
  = for_of (List.map mini_number (pull_requests (check_run event)))
      (fun n => processPr octokit context inputs (ByNumber n)) s.
Proof.
  intros Hown Hc Hp. unfold processCheckRunCompletedEvent.
  destruct (Z.eqb_spec (check_run_id (check_run event)) (runId context)) as [E|_];
    [now elim Hown|].
  rewrite Hc. simpl. rewrite for_of_map.
  destruct Hp as [-> | ->]; reflexivity.
Qed.

End CheckRunGate.

(** C4: a check-run event makes no PR be processed unless the check run is
    not the run's own, the action is 'completed' and the conclusion is
    'success' or 'skipped': otherwise one debug line is written and nothing
    else happens.  When the three hold, the PR numbers of the payload are
    fed one after the other to [processPr]: the PRs processed are a prefix
    of that list, and the whole list when the handler returns. *)
Theorem check_run_event_gate octokit context inputs (event : CheckRunCompleted) (s : State) :
  let own := check_run_id (check_run event) = runId context in
  let completed := check_run_action event = "completed" in
  let passed :=
    conclusion (check_run event) = Some "success"
    \/ conclusion (check_run event) = Some "skipped" in
  let numbers := List.map mini_number (pull_requests (check_run event)) in
  (~ (~ own /\ completed /\ passed) ->
   exists message,
     processCheckRunCompletedEvent octokit context inputs event s
     = (Returned tt, with_diagnostic (Debug message) s))
  /\ (~ own -> completed -> passed ->
      processCheckRunCompletedEvent octokit context inputs event s
      = for_of numbers (fun n => processPr octokit context inputs (ByNumber n)) s
      /\ forall r s',
          processCheckRunCompletedEvent octokit context inputs event s = (r, s') ->
          exists done,
            processed (log s') = processed (log s) ++ List.map title done
            /\ done `prefix_of` numbers
            /\ (r = Returned tt -> done = numbers)).
Proof.
  intros own completed passed numbers. split.
  - apply processCheckRunCompletedEvent_closed.
  - intros Hown Hc Hp.
    pose proof (processCheckRunCompletedEvent_open octokit context inputs event s Hown Hc Hp)
      as Hrun.
    split; [exact Hrun|].
    intros r s'. rewrite Hrun. apply for_of_processPr_processed.
Qed.

Lemma check_run_event_gate_witness :
  (exists message,
     processCheckRunCompletedEvent Example.octokit (Example.on "check_run" OtherPayload)
       Example.inputs (Example.check_run_event 77 "completed" (Some "failure") [7; 8]) initial
     = (Returned tt, with_diagnostic (Debug message) initial))
  /\ (exists message,
        processCheckRunCompletedEvent Example.octokit (Example.on "check_run" OtherPayload)
          Example.inputs (Example.check_run_event 1000 "completed" (Some "success") [7; 8])
          initial
        = (Returned tt, with_diagnostic (Debug message) initial))
  /\ processCheckRunCompletedEvent Example.octokit (Example.on "check_run" OtherPayload)
       Example.inputs (Example.check_run_event 77 "completed" (Some "skipped") [7; 8]) initial
     = for_of [7; 8]
         (fun n => processPr Example.octokit (Example.on "check_run" OtherPayload)
                     Example.inputs (ByNumber n)) initial.
Proof.
  split; [|split].
  - apply (proj1 (check_run_event_gate Example.octokit (Example.on "check_run" OtherPayload)
                    Example.inputs
                    (Example.check_run_event 77 "completed" (Some "failure") [7; 8]) initial)).
    simpl. intros (_ & _ & [H|H]); discriminate H.
  - apply (proj1 (check_run_event_gate Example.octokit (Example.on "check_run" OtherPayload)
                    Example.inputs
                    (Example.check_run_event 1000 "completed" (Some "success") [7; 8])
                    initial)).
    simpl. intros (H & _). now apply H.
  - apply (proj2 (check_run_event_gate Example.octokit (Example.on "check_run" OtherPayload)
                    Example.inputs
                    (Example.check_run_event 77 "completed" (Some "skipped") [7; 8]) initial)).
    + simpl. discriminate.
    + reflexivity.
    + right. reflexivity.
Defined.

(** ** The event router *)

(** C2, as the code has it: branch-protection-rule, push, schedule and
    workflow-dispatch events, and a deployment-status event whose state is
    'success', run the bulk driver over the open PRs; a check-run event that
    is not the run's own, is completed and concluded with 'success' or
    'skipped' runs [processPr] on each PR number of its payload; a check-run
    event failing one of these conditions, a deployment-status event in
    another state and every event of another name (pull_request,
    pull_request_review, status, ...) write one diagnostic and do nothing
    else. *)
Theorem event_dispatch octokit context inputs fuel (s : State) :
  (eventName context = "branch_protection_rule" \/ eventName context = "push"
   \/ eventName context = "schedule" \/ eventName context = "workflow_dispatch" ->
   run octokit context inputs fuel s
   = reporting_failure (processAllPrs octokit context inputs fuel) s)
  /\ (forall event,
        eventName context = "deployment_status" ->
        payload context = DeploymentStatusPayload event ->
        state (deployment_status event) = "success" ->
        run octokit context inputs fuel s
        = reporting_failure (processAllPrs octokit context inputs fuel) s)
  /\ (forall event,
        eventName context = "check_run" ->
        payload context = CheckRunPayload event ->
        check_run_id (check_run event) <> runId context ->
        check_run_action event = "completed" ->
        conclusion (check_run event) = Some "success"
        \/ conclusion (check_run event) = Some "skipped" ->
        run octokit context inputs fuel s
        = reporting_failure
            (for_of (List.map mini_number (pull_requests (check_run event)))
               (fun n => processPr octokit context inputs (ByNumber n))) s)
  /\ (forall event,
        eventName context = "check_run" ->
        payload context = CheckRunPayload event ->
        ~ (check_run_id (check_run event) <> runId context
           /\ check_run_action event = "completed"
           /\ (conclusion (check_run event) = Some "success"
               \/ conclusion (check_run event) = Some "skipped")) ->
        exists message,
          run octokit context inputs fuel s = (Returned tt, with_diagnostic (Debug message) s))
  /\ (forall event,
        eventName context = "deployment_status" ->
        payload context = DeploymentStatusPayload event ->
        state (deployment_status event) <> "success" ->
        exists message,
          run octokit context inputs fuel s = (Returned tt, with_diagnostic (Debug message) s))
  /\ (~ In (eventName context)
          ["branch_protection_rule"; "check_run"; "deployment_status"; "push"; "schedule";
           "workflow_dispatch"] ->
      run octokit context inputs fuel s
      = (Returned tt,
         with_diagnostic (Warning ("Unsupported event: '" +:+ eventName context +:+ "'")) s)).
Proof.
  unfold run, dispatch, reporting_failure. repeat split.
  - intros [E|[E|[E|E]]]; rewrite E; reflexivity.
  - intros event E P St. rewrite E, P. unfold try_catch. simpl. rewrite bind_ret.
    unfold processDeploymentStatusCreated. rewrite St. reflexivity.
  - intros event E P Hown Hc Hp. rewrite E, P. unfold try_catch. simpl. rewrite bind_ret.
    now rewrite (processCheckRunCompletedEvent_open octokit context inputs event s Hown Hc Hp).
  - intros event E P Hgate. rewrite E, P. unfold try_catch. simpl. rewrite bind_ret.
    destruct (processCheckRunCompletedEvent_closed octokit context inputs event s Hgate)
      as (message & ->).
    now exists message.
  - intros event E P St. rewrite E, P. unfold try_catch. simpl. rewrite bind_ret.
    unfold processDeploymentStatusCreated.
    destruct (String.eqb_spec (state (deployment_status event)) "success") as [|_];
      [contradiction|].
    simpl. eexists; reflexivity.
  - intros Hother.
    repeat match goal with
      | |- context [String.eqb (eventName context) ?name] =>
          destruct (String.eqb_spec (eventName context) name) as [E|_];
          [try (elim Hother; rewrite E; simpl; tauto)|]
      end;
      reflexivity.
Qed.

Lemma event_dispatch_witness :
  run Example.octokit (Example.on "push" OtherPayload) Example.inputs 3 initial
  = reporting_failure
      (processAllPrs Example.octokit (Example.on "push" OtherPayload) Example.inputs 3) initial
  /\ run Example.octokit (Example.on "pull_request_review" OtherPayload) Example.inputs 3 initial
     = (Returned tt,
        with_diagnostic (Warning "Unsupported event: 'pull_request_review'") initial)
  /\ (exists message,
        run Example.octokit Example.failed_check Example.inputs 3 initial
        = (Returned tt, with_diagnostic (Debug message) initial)).
Proof.
  split; [|split].
  - apply (proj1 (event_dispatch Example.octokit (Example.on "push" OtherPayload)
                    Example.inputs 3 initial)).
    right. left. reflexivity.
  - apply (proj2 (proj2 (proj2 (proj2 (proj2
             (event_dispatch Example.octokit (Example.on "pull_request_review" OtherPayload)
                Example.inputs 3 initial)))))).
    simpl. intros [H|[H|[H|[H|[H|[H|H]]]]]]; try discriminate H. exact H.
  - apply (proj1 (proj2 (proj2 (proj2
             (event_dispatch Example.octokit Example.failed_check Example.inputs 3 initial)))))
      with (event := Example.check_run_event 77 "completed" (Some "failure") [7; 8]).
    + reflexivity.
    + reflexivity.
    + simpl. intros (_ & _ & [H|H]); discriminate H.
Defined.

(** The claim as it is worded fails on a completed check run that concluded
    with a failure: the PRs of its payload are not processed. *)
Lemma completed_check_run_is_not_always_processed :
  eventName Example.failed_check = "check_run"
  /\ payload Example.failed_check
     = CheckRunPayload (Example.check_run_event 77 "completed" (Some "failure") [7; 8])
  /\ check_run_action (Example.check_run_event 77 "completed" (Some "failure") [7; 8])
     = "completed"
  /\ run Example.octokit Example.failed_check Example.inputs 3 initial
     = (Returned tt,
        with_diagnostic (Debug "Skipping check run by conclusion: 'failure'") initial)
  /\ processed (log (snd (run Example.octokit Example.failed_check Example.inputs 3 initial)))
     = []
  /\ processed
       (log (snd (reporting_failure
                    (for_of [7; 8]
                       (fun n => processPr Example.octokit Example.failed_check
                                   Example.inputs (ByNumber n))) initial)))
     = [title 7; title 8]
  /\ run Example.octokit Example.failed_check Example.inputs 3 initial
     <> reporting_failure
          (for_of [7; 8]
             (fun n => processPr Example.octokit Example.failed_check
                         Example.inputs (ByNumber n))) initial.
Proof.
  repeat split; try reflexivity.
  intros H.
  apply (f_equal (fun x => processed (log (snd x)))) in H.
  vm_compute in H. discriminate H.
Qed.

(** ** The configured lists and the label predicate *)

Lemma lower_ascii_idempotent c : JS.lower_ascii (JS.lower_ascii c) = JS.lower_ascii c.
Proof. destruct c as [[] [] [] [] [] [] [] []]; reflexivity. Qed.

Lemma toLowerCase_idempotent s : JS.toLowerCase (JS.toLowerCase s) = JS.toLowerCase s.
Proof.
  induction s as [|c s IH]; simpl; [reflexivity|].
  now rewrite lower_ascii_idempotent, IH.
Qed.

(** What the source makes of a list input: entries in lower case, none
    empty. *)
Lemma configured_entry (input r : string) :
  In r (List.filter (fun it => JS.nonempty it)
          (List.map (fun it => JS.toLowerCase (JS.trim it)) (JS.split input))) ->
  JS.toLowerCase r = r /\ r <> "".
Proof.
  intros H. apply filter_In in H. destruct H as [H Hne].
  apply in_map_iff in H. destruct H as (x & <- & _). split.
  - apply toLowerCase_idempotent.
  - intros E. rewrite E in Hne. discriminate Hne.
Qed.


(** ** The mergeability predicate *)



(** ** The whole run *)

Lemma failed_call_unique (l1 l2 l1' l2' : list Event) x x' :
  l1 ++ x :: l2 = l1' ++ x' :: l2' ->
  Forall (fun ev => ~ is_failed_call ev) l1 ->
  Forall (fun ev => ~ is_failed_call ev) l2 ->
  is_failed_call x' ->
  l1' = l1 /\ x' = x /\ l2' = l2.
Proof.
  intros E H1 H2 Hx'. revert l1' E.
  induction H1 as [|a l1 Ha _ IH]; intros [|y l1']; simpl; intros E.
  - injection E as -> ->. auto.
  - injection E as -> ->. apply Forall_app in H2. destruct H2 as [_ H2].
    inversion_clear H2. contradiction.
  - injection E as -> _. contradiction.
  - injection E as -> E. destruct (IH _ E) as (-> & -> & ->). auto.
Qed.

Lemma no_failed_call_in_clean (l before after : list Event) c e :
  Forall (fun ev => ~ is_failed_call ev) l ->
  l = before ++ Called c (Some e) :: after -> False.
Proof.
  intros H ->. apply Forall_app in H. destruct H as [_ H].
  inversion_clear H. simpl in *. auto.
Qed.

Section Run.

Variable octokit : Remote.
Variable context : Context.
Variable inputs : Inputs.

Variable allowed : Event -> Prop.
Hypothesis allowed_wrote : forall d, allowed (Wrote d).
Hypothesis allowed_reads : forall c f, ~ is_merge_call (Called c f) -> allowed (Called c f).
Hypothesis allowed_merge :
  dryRun inputs = false -> forall args f, allowed (Called (PullsMerge args) f).

(** The [try] block either behaves, or throws at once on a payload that is
    not of the shape the event name promises. *)
Lemma dispatch_cases fuel s r s' :
  dispatch octokit context inputs fuel s = (r, s') ->
  (exists new,
     log s' = log s ++ new
     /\ exitCode s' = exitCode s
     /\ Forall allowed new
     /\ ends_well r new)
  \/ (exists e, r = Thrown e /\ s' = s).
Proof.
  assert (forall m : Async unit, behaves allowed m -> m s = (r, s') ->
            (exists new, log s' = log s ++ new /\ exitCode s' = exitCode s
                         /\ Forall allowed new /\ ends_well r new)
            \/ (exists e, r = Thrown e /\ s' = s)) as Hb.
  { intros m Hm E. left. destruct (Hm _ _ _ E) as (new & L & _ & X & A & W).
    exists new. auto. }
  unfold dispatch, core.warning.
  repeat match goal with
    | |- (if ?b then _ else _) s = _ -> _ => destruct b
    | |- processAllPrs _ _ _ _ s = _ -> _ =>
        apply Hb; apply behaves_processAllPrs; auto
    | |- core.write _ s = _ -> _ => apply Hb; apply behaves_write; auto
    end.
  - destruct (payload context) as [event| |]; simpl.
    + rewrite bind_ret. apply Hb. apply behaves_processCheckRunCompletedEvent; auto.
    + intros [= <- <-]. right. eauto.
    + intros [= <- <-]. right. eauto.
  - destruct (payload context) as [|event|]; simpl.
    + intros [= <- <-]. right. eauto.
    + rewrite bind_ret. apply Hb. apply behaves_processDeploymentStatusCreated; auto.
    + intros [= <- <-]. right. eauto.
Qed.

(** What a run leaves in the log and in the exit code. *)
Lemma run_cases fuel s r s' :
  run octokit context inputs fuel s = (r, s') ->
  match r with
  | Thrown e =>
      exitCode s' = 1
      /\ exists new,
           log s' = log s ++ new ++ [Wrote (Error e)]
           /\ Forall allowed new
           /\ (new = []
               \/ exists pre c k,
                    new = pre ++ Called c (Some e) :: repeat (Wrote EndGroup) k
                    /\ Forall (fun ev => ~ is_failed_call ev) pre)
  | _ =>
      exitCode s' = exitCode s
      /\ exists new,
           log s' = log s ++ new
           /\ Forall allowed new
           /\ Forall (fun ev => ~ is_failed_call ev) new
  end.
Proof.
  unfold run, try_catch.
  destruct (dispatch octokit context inputs fuel s) as [r1 s1] eqn:E.
  apply dispatch_cases in E.
  destruct r1 as [[]|e|].
  - intros [= <- <-]. destruct E as [(new & L & X & A & W)|(e & [=] & _)].
    split; [assumption|]. exists new. auto.
  - unfold bind, core.setFailed, throw. intros [= <- <-]. simpl.
    split; [reflexivity|].
    destruct E as [(new & L & X & A & W)|(e' & _ & ->)].
    + exists new. rewrite L, app_assoc. split; [reflexivity|]. split; [assumption|].
      right. exact W.
    + exists []. split; [reflexivity|]. split; [constructor|]. now left.
  - intros [= <- <-]. destruct E as [(new & L & X & A & W)|(e & [=] & _)].
    split; [assumption|]. exists new. auto.
Qed.

End Run.

(** ** Fuel

    Only the listing can run out of fuel, and it does not when the fuel
    covers the pages the remote serves. *)

Lemma settles_ret {A} (a : A) : settles (ret a).
Proof. intros s. discriminate. Qed.

Lemma settles_write d : settles (core.write d).
Proof. intros s. discriminate. Qed.

Lemma settles_await {A} c (answer : list Interaction -> Response A) : settles (await c answer).
Proof. intros s. unfold await. destruct (answer (calls s)); discriminate. Qed.

Lemma settles_bind {A B} (m : Async A) (k : A -> Async B) :
  settles m -> (forall a, settles (k a)) -> settles (bind m k).
Proof.
  intros Hm Hk s. unfold bind. specialize (Hm s).
  destruct (m s) as [[a|e|] s1]; simpl in *; [apply Hk|discriminate|now elim Hm].
Qed.

Lemma settles_group {A} t (m : Async A) : settles m -> settles (core.group t m).
Proof.
  intros Hm. apply settles_bind; [apply settles_write|].
  intros _ s. unfold try_finally. specialize (Hm s).
  destruct (m s) as [[a|e|] s1]; simpl in *; [discriminate|discriminate|assumption].
Qed.

Lemma settles_for_of {A} (l : list A) (body : A -> Async unit) :
  (forall x, settles (body x)) -> settles (for_of l body).
Proof.
  intros Hb. induction l as [|x l IH]; simpl; [apply settles_ret|].
  apply settles_bind; auto.
Qed.

Section Fuel.

Variable octokit : Remote.
Variable context : Context.
Variable inputs : Inputs.

Lemma settles_doesBranchHaveRequiredChecks branchName :
  settles (doesBranchHaveRequiredChecks octokit context branchName).
Proof.
  apply settles_bind; [intros s; discriminate|].
  intros [v|]; [apply settles_ret|].
  apply settles_bind; [apply settles_await|]. intros branch.
  apply settles_bind; [intros s; discriminate|]. intros _. apply settles_ret.
Qed.

Lemma settles_processSnapshot n pr :
  settles (processSnapshot octokit context inputs n pr).
Proof.
  unfold processSnapshot, core.warning. cbv zeta.
  repeat match goal with
    | |- settles (if ?b then _ else _) => destruct b
    | |- settles (core.write _) => apply settles_write
    end.
  apply settles_bind; [apply settles_doesBranchHaveRequiredChecks|].
  intros has. destruct (negb has); [apply settles_write|].
  apply settles_bind; [apply settles_write|]. intros _.
  destruct (negb (dryRun inputs)); [apply settles_await|apply settles_ret].
Qed.

Lemma settles_processPr prParam : settles (processPr octokit context inputs prParam).
Proof.
  unfold processPr. apply settles_group.
  apply settles_bind; [|intros pr; apply settles_processSnapshot].
  destruct prParam as [pr|n]; [apply settles_ret|].
  apply settles_bind; [apply settles_await|intros it; apply settles_ret].
Qed.

(** If the remote serves no next page from page [last] on, fuel for the
    pages up to [last] is enough. *)
Lemma processPages_settles last :
  (forall h page response,
     pulls_list octokit h (context_repo context) page = Resolved response ->
     (last <= page)%nat -> has_next response = false) ->
  forall fuel page s,
    (0 < fuel)%nat -> (last < page + fuel)%nat ->
    fst (processPages octokit context inputs fuel page s) <> OutOfFuel.
Proof.
  intros Hlast fuel. induction fuel as [|fuel IH]; intros page s Hpos Hfuel; [lia|].
  simpl. unfold bind at 1, await.
  destruct (pulls_list octokit (calls s) (context_repo context) page) as [response|e] eqn:E;
    [|discriminate].
  unfold bind.
  pose proof (settles_for_of (data response)
                (fun pr => processPr octokit context inputs (ByValue (Listed pr)))
                (fun pr => settles_processPr (ByValue (Listed pr)))
                (with_call (PullsList (context_repo context) "open" page, None) s)) as Hfor.
  destruct (for_of _ _ _) as [[[]|e|] s1]; simpl in *; [|discriminate|contradiction].
  destruct (has_next response) eqn:Hnext; [|discriminate].
  assert (page < last)%nat as Hlt.
  { destruct (Nat.lt_ge_cases page last) as [H|H]; [exact H|].
    rewrite (Hlast _ _ _ E H) in Hnext. discriminate. }
  apply IH; lia.
Qed.

End Fuel.

(** ** The merge *)




(** ** Remote failures *)

(** C8: when a remote call of a run is rejected (whatever the call: PR
    fetch, branch lookup, listing, merge), [processPr] throws the error it
    was rejected with, and so does [run], which sets the exit code to 1 and
    writes the error; after the rejected call the log holds nothing but the
    closing of the open group and that error: no further remote call (no
    retry, no other PR fetched or merged) and no further PR processed. *)
Theorem remote_failure_ends_run octokit context inputs :
  (forall prParam s r s' before c e after,
     processPr octokit context inputs prParam s = (r, s') ->
     Forall (fun ev => ~ is_failed_call ev) (log s) ->
     log s' = before ++ Called c (Some e) :: after ->
     r = Thrown e)
  /\ (forall fuel s r s' before c e after,
        run octokit context inputs fuel s = (r, s') ->
        Forall (fun ev => ~ is_failed_call ev) (log s) ->
        log s' = before ++ Called c (Some e) :: after ->
        r = Thrown e
        /\ exitCode s' = 1
        /\ (exists k, after = repeat (Wrote EndGroup) k ++ [Wrote (Error e)])
        /\ Forall (fun ev => ~ is_call ev /\ ~ is_start_of_processing ev) after).
Proof.
  split.
  - intros prParam s r s' before c e after Hp Hclean Hlog.
    apply (behaves_processPr octokit context inputs (fun _ => True)) in Hp;
      try (intros; exact I).
    destruct Hp as (new & L & _ & _ & _ & W).
    rewrite L in Hlog. destruct r as [[]|e'|]; simpl in W.
    + exfalso. eapply no_failed_call_in_clean; [|exact Hlog].
      apply Forall_app. auto.
    + destruct W as (pre & c' & k & -> & Hpre).
      rewrite app_assoc in Hlog.
      apply failed_call_unique in Hlog; simpl; auto.
      * destruct Hlog as (_ & [= _ ->] & _). reflexivity.
      * apply Forall_app. auto.
      * apply clean_repeat_EndGroup.
    + exfalso. eapply no_failed_call_in_clean; [|exact Hlog].
      apply Forall_app. auto.
  - intros fuel s r s' before c e after Hrun Hclean Hlog.
    apply (run_cases octokit context inputs (fun _ => True)) in Hrun;
      try (intros; exact I).
    destruct r as [[]|e'|].
    + exfalso. destruct Hrun as (_ & new & L & _ & Hnew). rewrite L in Hlog.
      eapply no_failed_call_in_clean; [|exact Hlog]. apply Forall_app. auto.
    + destruct Hrun as (X & new & L & _ & [->|(pre & c' & k & -> & Hpre)]).
      * exfalso. rewrite L in Hlog. simpl in Hlog.
        eapply no_failed_call_in_clean; [|exact Hlog].
        apply Forall_app. split; [assumption|]. repeat constructor. simpl. auto.
      * rewrite L in Hlog. rewrite <- (app_assoc pre), app_assoc in Hlog.
        simpl in Hlog.
        apply failed_call_unique in Hlog; simpl; auto.
        -- destruct Hlog as (_ & [= _ ->] & ->).
           split; [reflexivity|]. split; [assumption|]. split; [now exists k|].
           apply Forall_app. split.
           ++ clear. induction k; simpl; constructor; simpl; tauto.
           ++ repeat constructor; simpl; tauto.
        -- apply Forall_app. auto.
        -- apply Forall_app. split; [apply clean_repeat_EndGroup|].
           repeat constructor. simpl. auto.
    + exfalso. destruct Hrun as (_ & new & L & _ & Hnew). rewrite L in Hlog.
      eapply no_failed_call_in_clean; [|exact Hlog]. apply Forall_app. auto.
Qed.

Lemma remote_failure_ends_run_witness :
  fst (run Example.octokit_conflict (Example.on "push" OtherPayload) Example.inputs 3 initial)
  = Thrown "Head branch was modified"
  /\ exitCode
       (snd (run Example.octokit_conflict (Example.on "push" OtherPayload) Example.inputs 3
               initial))
     = 1
  /\ (exists k,
        [Wrote EndGroup; Wrote (Error "Head branch was modified")]
        = repeat (Wrote EndGroup) k ++ [Wrote (Error "Head branch was modified")])
  /\ Forall (fun ev => ~ is_call ev /\ ~ is_start_of_processing ev)
       [Wrote EndGroup; Wrote (Error "Head branch was modified")].
Proof.
  apply (proj2 (remote_failure_ends_run Example.octokit_conflict
                  (Example.on "push" OtherPayload) Example.inputs)
           3%nat initial
           (fst (run Example.octokit_conflict (Example.on "push" OtherPayload)
                   Example.inputs 3 initial))
           (snd (run Example.octokit_conflict (Example.on "push" OtherPayload)
                   Example.inputs 3 initial))
           [Called (PullsList Example.acme "open" 1) None;
            Wrote (StartGroup "Processing PR #1");
            Called (ReposGetBranch Example.acme "main") None;
            Wrote (Warning "Merging PR #1")]
           (PullsMerge
              {| merge_owner := "acme"; merge_repo := "widgets"; pull_number := 1;
                 sha := "4f2a9c1"; merge_method := Some "squash" |})
           "Head branch was modified"
           [Wrote EndGroup; Wrote (Error "Head branch was modified")]).
  - apply surjective_pairing.
  - constructor.
  - reflexivity.
Defined.

(** ** Absent fields *)

(** C9: a snapshot whose head repository is absent has the empty string for
    the identity of its head repository; the empty string differs from the
    identity of the base repository (the URL of a repository), so the PR is
    denied for the first predicate, whatever its other fields, the policy,
    the remote and the state are. *)
Theorem absent_head_repository_is_denied (pr : Snapshot) :
  head_repo (head (fields pr)) = None ->
  "" <> html_url (base_repo (base (fields pr))) ->
  head_repository pr = ""
  /\ head_repository pr <> html_url (base_repo (base (fields pr)))
  /\ forall octokit context inputs s,
       (forall b, first_failing inputs pr b = Some SameRepository)
       /\ (forall n,
             processSnapshot octokit context inputs n pr s
             = (Returned tt,
                with_diagnostic (Warning (reason inputs n pr SameRepository)) s))
       /\ processPr octokit context inputs (ByValue pr) s
          = (Returned tt,
             with_diagnostic EndGroup
               (with_diagnostic
                  (Warning (reason inputs (number (fields pr)) pr SameRepository))
                  (with_diagnostic (StartGroup (title (number (fields pr)))) s))).
Proof.
  intros Hhead Hbase.
  assert (head_repository pr = "") as Hempty by (unfold head_repository; now rewrite Hhead).
  split; [exact Hempty|]. split; [rewrite Hempty; congruence|].
  intros octokit context inputs s.
  assert (forall b, first_failing inputs pr b = Some SameRepository) as Hfirst.
  { intros b. unfold first_failing. simpl. rewrite Hempty.
    destruct (String.eqb_spec (html_url (base_repo (base (fields pr)))) "") as [E|_];
      [now elim Hbase|reflexivity]. }
  split; [exact Hfirst|]. split.
  - intros n. apply processSnapshot_denied with (b := true); [apply Hfirst|discriminate].
  - unfold processPr, core.group, bind, try_finally, core.write, ret. simpl.
    rewrite (processSnapshot_denied octokit context inputs _ pr true SameRepository);
      [reflexivity|apply Hfirst|discriminate].
Qed.

Lemma absent_head_repository_is_denied_witness :
  processPr Example.octokit (Example.on "push" OtherPayload) Example.inputs
    (ByValue (Listed Example.orphan)) initial
  = (Returned tt,
     with_diagnostic EndGroup
       (with_diagnostic
          (Warning
             ("Skipping PR #21: base's repo https://github.com/acme/widgets"
              +:+ " is different from head's repo "))
          (with_diagnostic (StartGroup "Processing PR #21") initial))).
Proof.
  apply (proj2 (proj2 (absent_head_repository_is_denied (Listed Example.orphan)
                         eq_refl ltac:(discriminate)))).
Defined.



(** * Further properties of the code *)

(** ** The parsing of the list inputs *)

Lemma is_separator_lower c : JS.is_separator (JS.lower_ascii c) = JS.is_separator c.
Proof. destruct c as [[] [] [] [] [] [] [] []]; reflexivity. Qed.

Lemma is_white_lower c : JS.is_white (JS.lower_ascii c) = JS.is_white c.
Proof. destruct c as [[] [] [] [] [] [] [] []]; reflexivity. Qed.

Lemma split_from_cons b s : exists piece pieces, JS.split_from b s = piece :: pieces.
Proof.
  revert b. induction s as [|c s IH]; intros b; simpl; [eauto|].
  destruct (JS.is_separator c).
  - destruct b; [apply IH|eauto].
  - destruct (IH false) as (p & ps & ->). eauto.
Qed.

(** The pieces are made of characters of the input that are no separators. *)
Lemma split_from_pieces (P : ascii -> bool) b s p :
  all_chars P s = true -> In p (JS.split_from b s) ->
  all_chars (fun c => P c && negb (JS.is_separator c))%bool p = true.
Proof.
  revert b p. induction s as [|c s IH]; intros b p; simpl.
  - intros _ [<-|[]]. reflexivity.
  - intros H. apply andb_true_iff in H. destruct H as [Hc Hs].
    destruct (JS.is_separator c) eqn:Hsep.
    + destruct b; [now apply IH|].
      intros [<-|Hp]; [reflexivity|]. now apply (IH true).
    + destruct (split_from_cons false s) as (piece & pieces & E). rewrite E.
      intros [<-|Hp].
      * simpl. rewrite Hc, Hsep. simpl. apply (IH false); [assumption|].
        rewrite E. now left.
      * apply (IH false); [assumption|]. rewrite E. now right.
Qed.

Lemma all_chars_true s : all_chars (fun _ => true) s = true.
Proof. induction s as [|c s IH]; simpl; auto. Qed.

Lemma all_chars_impl (P Q : ascii -> bool) s :
  (forall c, P c = true -> Q c = true) -> all_chars P s = true -> all_chars Q s = true.
Proof.
  intros HPQ. induction s as [|c s IH]; simpl; [reflexivity|].
  intros H. apply andb_true_iff in H. destruct H as [Hc Hs].
  now rewrite (HPQ c Hc), IH.
Qed.

Lemma all_chars_trimStart P s : all_chars P s = true -> all_chars P (JS.trimStart s) = true.
Proof.
  induction s as [|c s IH]; simpl; [reflexivity|].
  intros H. destruct (JS.is_white c); [|exact H].
  apply andb_true_iff in H. now apply IH.
Qed.

Lemma all_chars_trimEnd P s : all_chars P s = true -> all_chars P (JS.trimEnd s) = true.
Proof.
  induction s as [|c s IH]; simpl; [reflexivity|].
  intros H. apply andb_true_iff in H. destruct H as [Hc Hs].
  specialize (IH Hs). destruct (JS.trimEnd s) as [|d t].
  - destruct (JS.is_white c); simpl; [reflexivity|]. now rewrite Hc.
  - change (all_chars P (String c (String d t)) = true). simpl in *. now rewrite Hc.
Qed.

Lemma all_chars_toLowerCase P s :
  (forall c, P (JS.lower_ascii c) = P c) ->
  all_chars P (JS.toLowerCase s) = all_chars P s.
Proof.
  intros HP. induction s as [|c s IH]; simpl; [reflexivity|]. now rewrite HP, IH.
Qed.

(** [trim] and [toLowerCase] commute, and [trim] does nothing to a trimmed
    string. *)
Lemma trimStart_toLowerCase s :
  JS.trimStart (JS.toLowerCase s) = JS.toLowerCase (JS.trimStart s).
Proof.
  induction s as [|c s IH]; simpl; [reflexivity|].
  rewrite is_white_lower. destruct (JS.is_white c); [exact IH|reflexivity].
Qed.

Lemma trimEnd_toLowerCase s :
  JS.trimEnd (JS.toLowerCase s) = JS.toLowerCase (JS.trimEnd s).
Proof.
  induction s as [|c s IH]; simpl; [reflexivity|].
  rewrite IH, is_white_lower.
  destruct (JS.trimEnd s); simpl; [destruct (JS.is_white c)|]; reflexivity.
Qed.

Lemma trim_toLowerCase s : JS.trim (JS.toLowerCase s) = JS.toLowerCase (JS.trim s).
Proof. unfold JS.trim. now rewrite trimStart_toLowerCase, trimEnd_toLowerCase. Qed.

Lemma trimEnd_idempotent s : JS.trimEnd (JS.trimEnd s) = JS.trimEnd s.
Proof.
  induction s as [|c s IH]; simpl; [reflexivity|].
  destruct (JS.trimEnd s) as [|d t] eqn:E.
  - destruct (JS.is_white c) eqn:W; simpl; [reflexivity|]. now rewrite W.
  - change (JS.trimEnd (String c (String d t)) = String c (String d t)).
    simpl. simpl in IH. now rewrite IH.
Qed.

(** What [trimStart] returns does not start with white space. *)
Lemma trimStart_head s c t : JS.trimStart s = String c t -> JS.is_white c = false.
Proof.
  induction s as [|d s IH]; simpl; [discriminate|].
  destruct (JS.is_white d) eqn:W; [exact IH|]. now intros [= <- _].
Qed.

Lemma trimStart_trimEnd s :
  (forall c t, s = String c t -> JS.is_white c = false) ->
  JS.trimStart (JS.trimEnd s) = JS.trimEnd s.
Proof.
  destruct s as [|c t]; [reflexivity|]. intros H.
  pose proof (H c t eq_refl) as W. simpl.
  destruct (JS.trimEnd t); [rewrite W|]; simpl; now rewrite W.
Qed.

Lemma trim_idempotent s : JS.trim (JS.trim s) = JS.trim s.
Proof.
  unfold JS.trim. rewrite trimStart_trimEnd; [apply trimEnd_idempotent|].
  intros c t. apply trimStart_head.
Qed.

Lemma requiredLabels_input_list inputs :
  requiredLabels inputs = input_list (input_requiredLabels inputs).
Proof. reflexivity. Qed.

Lemma authors_input_list inputs : authors inputs = input_list (input_authors inputs).
Proof. reflexivity. Qed.

Lemma input_list_well_formed input r : In r (input_list input) -> well_formed_entry r.
Proof.
  intros H. pose proof (configured_entry input r H) as [Hlow Hne].
  apply filter_In in H. destruct H as [H _].
  apply in_map_iff in H. destruct H as (p & <- & Hp).
  split; [exact Hne|]. split; [exact Hlow|]. split.
  - rewrite trim_toLowerCase, trim_idempotent. reflexivity.
  - rewrite all_chars_toLowerCase
      by (intros c; now rewrite is_separator_lower).
    unfold JS.trim. apply all_chars_trimEnd, all_chars_trimStart.
    apply (split_from_pieces (fun _ => true) false input p (all_chars_true input)) in Hp.
    exact Hp.
Qed.

Lemma split_from_toLowerCase b s :
  JS.split_from b (JS.toLowerCase s) = List.map JS.toLowerCase (JS.split_from b s).
Proof.
  revert b. induction s as [|c s IH]; intros b; simpl; [reflexivity|].
  rewrite is_separator_lower. destruct (JS.is_separator c).
  - destruct b; simpl; now rewrite IH.
  - rewrite IH. destruct (JS.split_from false s); reflexivity.
Qed.

Lemma input_list_toLowerCase input : input_list (JS.toLowerCase input) = input_list input.
Proof.
  unfold input_list, JS.split. rewrite split_from_toLowerCase, List.map_map.
  f_equal. apply List.map_ext. intros p.
  now rewrite trim_toLowerCase, toLowerCase_idempotent.
Qed.

Lemma trimStart_white s : all_chars JS.is_white s = true -> JS.trimStart s = "".
Proof.
  induction s as [|c s IH]; simpl; [reflexivity|].
  intros H. apply andb_true_iff in H. destruct H as [-> Hs]. now apply IH.
Qed.

Lemma white_trimStart s :
  all_chars JS.is_white (JS.trimStart s) = true -> all_chars JS.is_white s = true.
Proof.
  induction s as [|c s IH]; simpl; [reflexivity|].
  destruct (JS.is_white c) eqn:W; simpl; [exact IH|]. now rewrite W.
Qed.

Lemma trimEnd_empty s : JS.trimEnd s = "" -> all_chars JS.is_white s = true.
Proof.
  induction s as [|c s IH]; simpl; [reflexivity|].
  destruct (JS.trimEnd s); [|discriminate].
  destruct (JS.is_white c); [|discriminate]. intros _. now apply IH.
Qed.

Lemma trim_empty s : JS.trim s = "" <-> all_chars JS.is_white s = true.
Proof.
  unfold JS.trim. split.
  - intros H. now apply white_trimStart, trimEnd_empty.
  - intros H. now rewrite (trimStart_white s H).
Qed.

Lemma toLowerCase_empty s : JS.toLowerCase s = "" <-> s = "".
Proof. destruct s; simpl; split; intros H; try reflexivity; discriminate. Qed.

Lemma filter_nonempty_nil (f : string -> string) l :
  List.filter (fun it => JS.nonempty it) (List.map f l) = [] <->
  forall p, In p l -> f p = "".
Proof.
  induction l as [|x l IH]; simpl; [tauto|].
  destruct (f x) eqn:E; simpl.
  - rewrite IH. split; [intros H p [<-|Hp]; auto|intros H p Hp; apply H; auto].
  - split; [discriminate|]. intros H. specialize (H x (or_introl eq_refl)). congruence.
Qed.

(** An input whose pieces are white space is white space and separators. *)
Lemma white_pieces b s :
  (forall p, In p (JS.split_from b s) -> all_chars JS.is_white p = true) ->
  all_chars is_blank s = true.
Proof.
  revert b. induction s as [|c s IH]; intros b; simpl; [reflexivity|].
  unfold is_blank at 1. destruct (JS.is_separator c) eqn:Hsep.
  - rewrite orb_true_r. simpl. destruct b; [apply IH|].
    intros H. apply (IH true). intros p Hp. apply H. now right.
  - destruct (split_from_cons false s) as (piece & pieces & E). rewrite E.
    intros H. pose proof (H _ (or_introl eq_refl)) as Hc. simpl in Hc.
    apply andb_true_iff in Hc. destruct Hc as [-> Hpiece]. simpl.
    apply (IH false). rewrite E. intros p [<-|Hp]; [assumption|]. apply H. now right.
Qed.

Lemma input_list_nil input : input_list input = [] <-> all_chars is_blank input = true.
Proof.
  unfold input_list. rewrite filter_nonempty_nil. split.
  - intros H. apply (white_pieces false). intros p Hp.
    apply trim_empty, toLowerCase_empty, H, Hp.
  - intros H p Hp. apply toLowerCase_empty, trim_empty.
    apply (split_from_pieces is_blank false input p H) in Hp.
    revert Hp. apply all_chars_impl. intros c Hc.
    apply andb_true_iff in Hc. destruct Hc as [Hb Hs].
    unfold is_blank in Hb. apply negb_true_iff in Hs. rewrite Hs, orb_false_r in Hb.
    exact Hb.
Qed.

Lemma append_nil_r s : s +:+ "" = s.
Proof. induction s as [|c s IH]; [reflexivity|]. change (String c (s +:+ "") = String c s). now rewrite IH. Qed.

(** Splitting after a prefix without separator. *)
Lemma split_from_prefix x s :
  all_chars (fun c => negb (JS.is_separator c)) x = true ->
  JS.split_from false (x +:+ s)
  = match JS.split_from false s with
    | piece :: pieces => (x +:+ piece) :: pieces
    | [] => [x]
    end.
Proof.
  destruct (split_from_cons false s) as (p & ps & E). rewrite E.
  induction x as [|c x IH]; intros H.
  - change ("" +:+ s) with s. exact E.
  - simpl in H. apply andb_true_iff in H. destruct H as [Hc Hx].
    apply negb_true_iff in Hc.
    change (String c x +:+ s) with (String c (x +:+ s)). simpl. rewrite Hc, (IH Hx).
    reflexivity.
Qed.

Lemma split_join l :
  Forall well_formed_entry l ->
  JS.split (JS.join ", " l)
  = match l with
    | [] => [""]
    | x :: l' => x :: List.map (fun y => " " +:+ y) l'
    end.
Proof.
  unfold JS.split. induction 1 as [|x l Hx Hl IH]; [reflexivity|].
  destruct Hx as (_ & _ & _ & Hsep).
  destruct l as [|y l].
  - simpl. pose proof (split_from_prefix x "" Hsep) as E.
    simpl in E. rewrite !append_nil_r in E. exact E.
  - change (JS.join ", " (x :: y :: l)) with (x +:+ ", " +:+ JS.join ", " (y :: l)).
    rewrite (split_from_prefix x _ Hsep).
    assert (JS.split_from false (", " +:+ JS.join ", " (y :: l))
            = "" :: JS.split_from false (" " +:+ JS.join ", " (y :: l))) as E
      by reflexivity.
    rewrite E. cbv beta iota. rewrite append_nil_r.
    rewrite (split_from_prefix " " _ eq_refl), IH. reflexivity.
Qed.

Lemma input_list_join l : Forall well_formed_entry l -> input_list (JS.join ", " l) = l.
Proof.
  intros H. unfold input_list. rewrite (split_join l H).
  destruct H as [|x l Hx Hl]; [reflexivity|].
  assert (forall y, well_formed_entry y ->
            JS.nonempty (JS.toLowerCase (JS.trim y)) = true
            /\ JS.toLowerCase (JS.trim y) = y) as Hone.
  { intros y (Hne & Hlow & Htrim & _). rewrite Htrim, Hlow.
    split; [|reflexivity]. destruct y; [contradiction|reflexivity]. }
  simpl. destruct (Hone x Hx) as [-> ->]. f_equal.
  induction Hl as [|y l Hy Hl IH]; [reflexivity|].
  simpl. change (JS.trim (" " +:+ y)) with (JS.trim y).
  destruct (Hone y Hy) as [-> ->]. now rewrite IH.
Qed.

(** X4: the text of a configured list as the warnings print it (its
    entries joined by a comma and a space) is read back as the same list:
    printing, then parsing, is the identity on configured lists. *)
Theorem printed_list_is_read_back inputs :
  input_list (JS.join ", " (requiredLabels inputs)) = requiredLabels inputs
  /\ input_list (JS.join ", " (authors inputs)) = authors inputs.
Proof.
  split; apply input_list_join; apply List.Forall_forall; intros r Hr;
    eapply input_list_well_formed; exact Hr.
Qed.

(** ** Invariants of a run

    An invariant that every step of a run keeps is kept by the run: the
    steps are the writing of a diagnostic other than an error, a branch
    lookup that misses the cache, the fetch of a PR, the request of a page,
    the merge of an approved PR outside dry run and, for [run] itself, the
    report of the error it throws. *)

Section Invariant.

Variable octokit : Remote.
Variable context : Context.
Variable inputs : Inputs.
Variables Inv Exc : State -> Prop.

Hypothesis Inv_Exc : forall s, Inv s -> Exc s.
Hypothesis Inv_wrote : forall d s, ~ is_error d -> Inv s -> Inv (with_diagnostic d s).
Hypothesis Exc_wrote : forall d s, ~ is_error d -> Exc s -> Exc (with_diagnostic d s).

Hypothesis Inv_getBranch :
  forall s b,
    Inv s -> doesBranchHaveRequiredChecksCache s !! b = None ->
    match repos_getBranch octokit (calls s) (context_repo context) b with
    | Resolved branch =>
        Inv (with_cache (<[b := branch_has_required_checks branch]>
                           (doesBranchHaveRequiredChecksCache s))
               (with_event (Called (ReposGetBranch (context_repo context) b) None) s))
    | Rejected e =>
        Exc (with_event (Called (ReposGetBranch (context_repo context) b) (Some e)) s)
    end.

Hypothesis Inv_merge :
  forall s n pr,
    Inv s ->
    first_failing inputs pr true = None ->
    doesBranchHaveRequiredChecksCache s !! base_ref (base (fields pr)) = Some true ->
    dryRun inputs = false ->
    match pulls_merge octokit
            (calls (with_diagnostic (Warning ("Merging PR #" +:+ pretty n)) s))
            (merge_args context inputs n pr) with
    | Resolved _ =>
        Inv (with_event (Called (PullsMerge (merge_args context inputs n pr)) None)
               (with_diagnostic (Warning ("Merging PR #" +:+ pretty n)) s))
    | Rejected e =>
        Exc (with_event (Called (PullsMerge (merge_args context inputs n pr)) (Some e))
               (with_diagnostic (Warning ("Merging PR #" +:+ pretty n)) s))
    end.

Lemma preserves_doesBranchHaveRequiredChecks b :
  preserves Inv Exc (doesBranchHaveRequiredChecks octokit context b).
Proof using Inv_getBranch.
  intros s r s' E HI.
  destruct (doesBranchHaveRequiredChecksCache s !! b) as [v|] eqn:Hc.
  - rewrite (doesBranchHaveRequiredChecks_hit _ _ _ _ _ Hc) in E.
    injection E as <- <-. exact HI.
  - rewrite (doesBranchHaveRequiredChecks_miss _ _ _ _ Hc) in E.
    pose proof (Inv_getBranch s b HI Hc) as H.
    destruct (repos_getBranch _ _ _ _); injection E as <- <-; exact H.
Qed.

Lemma preserves_processSnapshot n pr :
  preserves Inv Exc (processSnapshot octokit context inputs n pr).
Proof using Inv_wrote Inv_getBranch Inv_merge.
  intros s r s' E HI.
  destruct (first_failing inputs pr true) as [p|] eqn:Hp.
  - rewrite (processSnapshot_denied octokit context inputs n pr true p s Hp
               (first_failing_holds_base _ _ _ Hp)) in E.
    injection E as <- <-. apply Inv_wrote; simpl; auto.
  - rewrite (processSnapshot_passed octokit context inputs n pr s Hp) in E.
    unfold checkBranchAndMerge, bind at 1 in E.
    destruct (doesBranchHaveRequiredChecks octokit context (base_ref (base (fields pr))) s)
      as [r1 s1] eqn:E1.
    pose proof (preserves_doesBranchHaveRequiredChecks _ _ _ _ E1 HI) as H1.
    destruct r1 as [[]|e|]; try (injection E as <- <-; exact H1).
    + apply doesBranchHaveRequiredChecks_stores in E1.
      simpl in E. unfold bind, core.warning, core.write in E.
      destruct (dryRun inputs) eqn:Hdry; simpl in E.
      * injection E as <- <-. apply Inv_wrote; simpl; auto.
      * unfold await in E. pose proof (Inv_merge s1 n pr H1 Hp E1 eq_refl) as Hm.
        destruct (pulls_merge _ _ _); injection E as <- <-; exact Hm.
    + simpl in E. injection E as <- <-. apply Inv_wrote; simpl; auto.
Qed.

Lemma preserves_group {A} t (m : Async A) :
  preserves Inv Exc m -> preserves Inv Exc (core.group t m).
Proof using Inv_wrote Exc_wrote.
  intros Hm s r s' E HI. unfold core.group, bind, core.write, try_finally in E.
  destruct (m (with_diagnostic (StartGroup t) s)) as [r1 s1] eqn:E1.
  assert (Inv (with_diagnostic (StartGroup t) s)) as HI' by (apply Inv_wrote; simpl; auto).
  pose proof (Hm _ _ _ E1 HI') as H1.
  destruct r1; injection E as <- <-;
    [apply Inv_wrote; simpl; auto|apply Exc_wrote; simpl; auto|exact H1].
Qed.

Lemma preserves_for_of {A} (l : list A) (body : A -> Async unit) :
  (forall x, preserves Inv Exc (body x)) -> preserves Inv Exc (for_of l body).
Proof using Type.
  intros Hb. induction l as [|x l IH]; intros s r s' E HI; simpl in E.
  - injection E as <- <-. exact HI.
  - unfold bind in E. destruct (body x s) as [r1 s1] eqn:E1.
    pose proof (Hb x _ _ _ E1 HI) as H1.
    destruct r1; [now apply (IH _ _ _ E)|injection E as <- <-; exact H1..].
Qed.

(** A PR given by its snapshot. *)
Lemma preserves_processPr_snapshot pr :
  preserves Inv Exc (processPr octokit context inputs (ByValue pr)).
Proof using Inv_wrote Exc_wrote Inv_getBranch Inv_merge.
  unfold processPr. apply preserves_group.
  intros s r s'. rewrite bind_ret. apply preserves_processSnapshot.
Qed.

Hypothesis Inv_list :
  forall s page,
    Inv s ->
    match pulls_list octokit (calls s) (context_repo context) page with
    | Resolved _ =>
        Inv (with_event (Called (PullsList (context_repo context) "open" page) None) s)
    | Rejected e =>
        Exc (with_event (Called (PullsList (context_repo context) "open" page) (Some e)) s)
    end.

Lemma preserves_processPages fuel page :
  preserves Inv Exc (processPages octokit context inputs fuel page).
Proof using Inv_Exc Inv_wrote Exc_wrote Inv_getBranch Inv_merge Inv_list.
  revert page. induction fuel as [|fuel IH]; intros page s r s' E HI; simpl in E.
  - injection E as <- <-. now apply Inv_Exc.
  - unfold bind at 1, await in E. pose proof (Inv_list s page HI) as Hl.
    destruct (pulls_list _ _ _ _) as [response|e]; [|injection E as <- <-; exact Hl].
    unfold bind in E.
    destruct (for_of (data response) _ _) as [r1 s1] eqn:E1.
    pose proof (preserves_for_of _ _
                  (fun pr => preserves_processPr_snapshot (Listed pr)) _ _ _ E1 Hl) as H1.
    destruct r1 as [[]|e|]; try (injection E as <- <-; exact H1).
    destruct (has_next response); [now apply (IH _ _ _ _ E)|].
    injection E as <- <-. exact H1.
Qed.

Lemma preserves_processAllPrs fuel :
  preserves Inv Exc (processAllPrs octokit context inputs fuel).
Proof using Inv_Exc Inv_wrote Exc_wrote Inv_getBranch Inv_merge Inv_list.
  apply preserves_processPages.
Qed.

Hypothesis Inv_get :
  forall s n,
    Inv s ->
    match pulls_get octokit (calls s) (context_repo context) n with
    | Resolved _ => Inv (with_event (Called (PullsGet (context_repo context) n) None) s)
    | Rejected e => Exc (with_event (Called (PullsGet (context_repo context) n) (Some e)) s)
    end.

(** A PR given by its number. *)
Lemma preserves_processPr_number n :
  preserves Inv Exc (processPr octokit context inputs (ByNumber n)).
Proof using Inv_wrote Exc_wrote Inv_getBranch Inv_merge Inv_get.
  unfold processPr. apply preserves_group.
  intros s r s' E HI. unfold bind at 1 2, await in E.
  pose proof (Inv_get s n HI) as Hg.
  destruct (pulls_get _ _ _ _) as [it|e]; [|injection E as <- <-; exact Hg].
  simpl in E. now apply (preserves_processSnapshot _ _ _ _ _ E).
Qed.

Lemma preserves_processCheckRunCompletedEvent event :
  preserves Inv Exc (processCheckRunCompletedEvent octokit context inputs event).
Proof using Inv_wrote Exc_wrote Inv_getBranch Inv_merge Inv_get.
  intros s r s'. unfold processCheckRunCompletedEvent, core.debug, core.write.
  repeat match goal with
    | |- (if ?b then _ else _) s = _ -> _ => destruct b
    | |- (Returned tt, _) = _ -> _ =>
        intros [= <- <-] HI; apply Inv_wrote; simpl; auto
    end.
  apply preserves_for_of. intros prMini. apply preserves_processPr_number.
Qed.

Lemma preserves_dispatch fuel :
  preserves Inv Exc (dispatch octokit context inputs fuel).
Proof using Inv_Exc Inv_wrote Exc_wrote Inv_getBranch Inv_merge Inv_list Inv_get.
  intros s r s'. unfold dispatch, core.warning, core.write.
  repeat match goal with
    | |- (if ?b then _ else _) s = _ -> _ => destruct b
    | |- processAllPrs _ _ _ _ s = _ -> _ => apply preserves_processAllPrs
    | |- (Returned tt, _) = _ -> _ =>
        intros [= <- <-] HI; apply Inv_wrote; simpl; auto
    end.
  - destruct (payload context) as [event| |]; simpl;
      try (intros [= <- <-] HI; now apply Inv_Exc).
    rewrite bind_ret. apply preserves_processCheckRunCompletedEvent.
  - destruct (payload context) as [|event|]; simpl;
      try (intros [= <- <-] HI; now apply Inv_Exc).
    rewrite bind_ret. unfold processDeploymentStatusCreated, core.debug, core.write.
    destruct (negb _); [intros [= <- <-] HI; apply Inv_wrote; simpl; auto|].
    apply preserves_processAllPrs.
Qed.

Hypothesis Exc_failed :
  forall e s, Exc s -> Exc (with_diagnostic (Error e) (with_exitCode 1 s)).

Lemma preserves_run fuel : preserves Inv Exc (run octokit context inputs fuel).
Proof using All.
  intros s r s' E HI. unfold run, try_catch in E.
  destruct (dispatch octokit context inputs fuel s) as [r1 s1] eqn:E1.
  pose proof (preserves_dispatch fuel _ _ _ E1 HI) as H1.
  destruct r1 as [[]|e|]; try (injection E as <- <-; exact H1).
  unfold bind, core.setFailed, throw in E. injection E as <- <-.
  now apply Exc_failed.
Qed.

End Invariant.

(** ** One lookup per branch *)

Lemma lookups_app l1 l2 : lookups (l1 ++ l2) = lookups l1 ++ lookups l2.
Proof.
  induction l1 as [|[[]|] l1 IH]; simpl; try assumption; [reflexivity|].
  now rewrite IH.
Qed.

Lemma merges_app l1 l2 : merges (l1 ++ l2) = merges l1 ++ merges l2.
Proof.
  induction l1 as [|[[]|] l1 IH]; simpl; try assumption; [reflexivity|].
  now rewrite IH.
Qed.

(** X5: in a run, the branch endpoint is asked at most once for each
    branch name, however many PRs share the base branch. *)
Theorem one_lookup_per_branch octokit context inputs fuel :
  NoDup (lookups (log (snd (run octokit context inputs fuel initial)))).
Proof.
  pose (Inv := fun s : State =>
          NoDup (lookups (log s))
          /\ forall b, b ∈ lookups (log s) ->
               is_Some (doesBranchHaveRequiredChecksCache s !! b)).
  pose (Exc := fun s : State => NoDup (lookups (log s))).
  destruct (run octokit context inputs fuel initial) as [r s'] eqn:E.
  assert (Inv initial) as H0.
  { split; [constructor|]. simpl. intros b Hb. now apply elem_of_nil in Hb. }
  assert (match r with Returned _ => Inv s' | _ => Exc s' end) as H.
  { apply (preserves_run octokit context inputs Inv Exc) with (fuel := fuel) (s := initial);
      try assumption; unfold Inv, Exc; simpl.
    - intros s [H _]. exact H.
    - intros d s _ [H1 H2]. rewrite lookups_app. simpl. rewrite app_nil_r. auto.
    - intros d s _ H. rewrite lookups_app. simpl. now rewrite app_nil_r.
    - intros s b [H1 H2] Hmiss.
      assert (b ∉ lookups (log s)) as Hnew.
      { intros Hb. destruct (H2 b Hb) as [v Hv]. congruence. }
      assert (NoDup (lookups (log s) ++ [b])) as Hnodup.
      { apply NoDup_app. split; [assumption|]. split.
        - intros x Hx Hx'. apply list_elem_of_singleton in Hx'. now subst x.
        - apply NoDup_singleton. }
      destruct (repos_getBranch _ _ _ _) as [branch|e]; simpl;
        rewrite lookups_app; simpl; [|exact Hnodup].
      split; [exact Hnodup|]. intros b' Hb'.
      apply elem_of_app in Hb'. destruct Hb' as [Hb'|Hb'].
      + destruct (decide (b = b')) as [->|Hne].
        * rewrite lookup_insert_eq. eauto.
        * rewrite lookup_insert_ne by assumption. auto.
      + apply list_elem_of_singleton in Hb'. subst b'. rewrite lookup_insert_eq. eauto.
    - intros s n pr [H1 H2] _ _ _.
      destruct (pulls_merge _ _ _); simpl; rewrite !lookups_app; simpl;
        rewrite !app_nil_r; auto.
    - intros s page [H1 H2].
      destruct (pulls_list _ _ _ _); simpl; rewrite !lookups_app; simpl;
        rewrite !app_nil_r; auto.
    - intros s n [H1 H2].
      destruct (pulls_get _ _ _ _); simpl; rewrite !lookups_app; simpl;
        rewrite !app_nil_r; auto.
    - intros e s H. rewrite lookups_app. simpl. now rewrite app_nil_r. }
  simpl. destruct r; [apply H|exact H..].
Qed.

(** ** No merge without required checks *)

(** X6: when the remote reports no branch with required status checks
    (protection disabled, or no check listed), a run merges nothing,
    whatever the event, the PRs and the policy are. *)
Theorem no_merge_without_required_checks octokit :
  (forall h r b branch,
     repos_getBranch octokit h r b = Resolved branch -> ~ required_checks_enforced branch) ->
  forall context inputs fuel,
    merges (log (snd (run octokit context inputs fuel initial))) = [].
Proof.
  intros Hremote context inputs fuel.
  pose (Inv := fun s : State =>
          merges (log s) = []
          /\ forall b, doesBranchHaveRequiredChecksCache s !! b <> Some true).
  pose (Exc := fun s : State => merges (log s) = []).
  destruct (run octokit context inputs fuel initial) as [r s'] eqn:E.
  assert (Inv initial) as H0.
  { split; [reflexivity|]. intros b. simpl. rewrite lookup_empty. discriminate. }
  assert (match r with Returned _ => Inv s' | _ => Exc s' end) as H.
  { apply (preserves_run octokit context inputs Inv Exc) with (fuel := fuel) (s := initial);
      try assumption; unfold Inv, Exc; simpl.
    - intros s [H _]. exact H.
    - intros d s _ [H1 H2]. rewrite merges_app, H1. auto.
    - intros d s _ H. now rewrite merges_app, H.
    - intros s b [H1 H2] Hmiss.
      destruct (repos_getBranch _ _ _ _) as [branch|e] eqn:Eb; simpl;
        rewrite merges_app, H1; [|reflexivity].
      split; [reflexivity|]. intros b'.
      assert (branch_has_required_checks branch = false) as ->.
      { destruct (branch_has_required_checks branch) eqn:Hb; [|reflexivity].
        apply branch_has_required_checks_spec in Hb. now apply Hremote in Eb. }
      destruct (decide (b = b')) as [->|Hne].
      + rewrite lookup_insert_eq. discriminate.
      + rewrite lookup_insert_ne by assumption. apply H2.
    - intros s n pr [H1 H2] _ Htrue _. now apply H2 in Htrue.
    - intros s page [H1 H2].
      destruct (pulls_list _ _ _ _); simpl; rewrite merges_app, H1; auto.
    - intros s n [H1 H2].
      destruct (pulls_get _ _ _ _); simpl; rewrite merges_app, H1; auto.
    - intros e s H. now rewrite merges_app, H. }
  simpl. destruct r; [apply H|exact H..].
Qed.

Lemma no_merge_without_required_checks_witness :
  merges
    (log (snd (run Example.octokit_unprotected (Example.on "push" OtherPayload)
                 Example.inputs 3 initial)))
  = [].
Proof.
  apply (no_merge_without_required_checks Example.octokit_unprotected).
  intros h r b branch [= <-] [H _]. discriminate H.
Defined.

(** ** Merges are announced *)

Lemma snoc_split {A} (l before after : list A) e x :
  l ++ [e] = before ++ x :: after ->
  (after = [] /\ before = l /\ x = e)
  \/ (exists after', after = after' ++ [e] /\ l = before ++ x :: after').
Proof.
  destruct after as [|y after] using rev_ind.
  - intros H. apply app_inj_tail in H. destruct H as [-> ->]. now left.
  - intros H. rewrite app_comm_cons, app_assoc in H.
    apply app_inj_tail in H. destruct H as [-> ->]. right. eauto.
Qed.

Lemma announced_snoc l e :
  ~ is_merge_call e -> merges_are_announced l -> merges_are_announced (l ++ [e]).
Proof.
  intros He Hl before args f after H.
  apply snoc_split in H. destruct H as [(_ & _ & <-)|(after' & _ & ->)].
  - simpl in He. now elim He.
  - eapply Hl. reflexivity.
Qed.

Lemma announced_merge l args f :
  merges_are_announced l ->
  merges_are_announced
    ((l ++ [Wrote (Warning ("Merging PR #" +:+ pretty (pull_number args)))])
       ++ [Called (PullsMerge args) f]).
Proof.
  intros Hl before args' f' after H.
  apply snoc_split in H. destruct H as [(_ & -> & [= -> ->])|(after' & _ & H)].
  - eauto.
  - apply (announced_snoc l (Wrote (Warning ("Merging PR #" +:+ pretty (pull_number args)))))
      in Hl; [|simpl; auto].
    eapply Hl. exact H.
Qed.

(** X7: in the log of a run, every merge call comes right after the
    warning 'Merging PR #N' for the PR number it merges: no PR is merged
    unannounced. *)
Theorem merges_follow_their_announcement octokit context inputs fuel :
  merges_are_announced (log (snd (run octokit context inputs fuel initial))).
Proof.
  pose (Inv := fun s : State => merges_are_announced (log s)).
  destruct (run octokit context inputs fuel initial) as [r s'] eqn:E.
  assert (Inv initial) as H0.
  { intros before args f after H. simpl in H. now destruct before. }
  assert (match r with Returned _ => Inv s' | _ => Inv s' end) as H.
  { apply (preserves_run octokit context inputs Inv Inv) with (fuel := fuel) (s := initial);
      try assumption; unfold Inv; simpl.
    - auto.
    - intros d s _ H. apply announced_snoc; simpl; auto.
    - intros d s _ H. apply announced_snoc; simpl; auto.
    - intros s b H _.
      destruct (repos_getBranch _ _ _ _); simpl; apply announced_snoc; simpl; auto.
    - intros s n pr H _ _ _.
      destruct (pulls_merge _ _ _); simpl;
        apply (announced_merge (log s) (merge_args context inputs n pr)); exact H.
    - intros s page H.
      destruct (pulls_list _ _ _ _); simpl; apply announced_snoc; simpl; auto.
    - intros s n H.
      destruct (pulls_get _ _ _ _); simpl; apply announced_snoc; simpl; auto.
    - intros e s H. apply announced_snoc; simpl; auto. }
  simpl. now destruct r.
Qed.

(** ** The calls of each handler *)

(** X8: the bulk driver reads PRs from the listing only, it never fetches
    a PR by its number; the check-run handler fetches the PRs of its
    payload and never asks for a listing. *)
Theorem handlers_use_their_own_reads octokit context inputs :
  (forall fuel s,
     Forall (fun ev => ~ is_fetch_of_one ev) (log s) ->
     Forall (fun ev => ~ is_fetch_of_one ev)
       (log (snd (processAllPrs octokit context inputs fuel s))))
  /\ (forall event s,
        Forall (fun ev => ~ is_listing ev) (log s) ->
        Forall (fun ev => ~ is_listing ev)
          (log (snd (processCheckRunCompletedEvent octokit context inputs event s)))).
Proof.
  split.
  - intros fuel s Hs.
    pose (Inv := fun s : State => Forall (fun ev => ~ is_fetch_of_one ev) (log s)).
    destruct (processAllPrs octokit context inputs fuel s) as [r s'] eqn:E.
    assert (match r with Returned _ => Inv s' | _ => Inv s' end) as H.
    { apply (preserves_processAllPrs octokit context inputs Inv Inv)
        with (fuel := fuel) (s := s);
        try assumption; unfold Inv; simpl.
      - auto.
      - intros d s0 _ H. apply Forall_app. split; [assumption|]. repeat constructor. auto.
      - intros d s0 _ H. apply Forall_app. split; [assumption|]. repeat constructor. auto.
      - intros s0 b H _.
        destruct (repos_getBranch _ _ _ _); simpl; apply Forall_app;
          (split; [assumption|]); repeat constructor; auto.
      - intros s0 n pr H _ _ _.
        destruct (pulls_merge _ _ _); simpl; rewrite <- app_assoc; apply Forall_app;
          (split; [assumption|]); repeat constructor; auto.
      - intros s0 page H.
        destruct (pulls_list _ _ _ _); simpl; apply Forall_app;
          (split; [assumption|]); repeat constructor; auto. }
    simpl. now destruct r.
  - intros event s Hs.
    pose (Inv := fun s : State => Forall (fun ev => ~ is_listing ev) (log s)).
    destruct (processCheckRunCompletedEvent octokit context inputs event s) as [r s'] eqn:E.
    assert (match r with Returned _ => Inv s' | _ => Inv s' end) as H.
    { apply (preserves_processCheckRunCompletedEvent octokit context inputs Inv Inv)
        with (event := event) (s := s);
        try assumption; unfold Inv; simpl.
      - intros d s0 _ H. apply Forall_app. split; [assumption|]. repeat constructor. auto.
      - intros d s0 _ H. apply Forall_app. split; [assumption|]. repeat constructor. auto.
      - intros s0 b H _.
        destruct (repos_getBranch _ _ _ _); simpl; apply Forall_app;
          (split; [assumption|]); repeat constructor; auto.
      - intros s0 n pr H _ _ _.
        destruct (pulls_merge _ _ _); simpl; rewrite <- app_assoc; apply Forall_app;
          (split; [assumption|]); repeat constructor; auto.
      - intros s0 n H.
        destruct (pulls_get _ _ _ _); simpl; apply Forall_app;
          (split; [assumption|]); repeat constructor; auto. }
    simpl. now destruct r.
Qed.

Lemma handlers_use_their_own_reads_witness :
  Forall (fun ev => ~ is_fetch_of_one ev)
    (log (snd (processAllPrs Example.octokit (Example.on "push" OtherPayload)
                 Example.inputs 3 initial)))
  /\ Forall (fun ev => ~ is_listing ev)
       (log (snd (processCheckRunCompletedEvent Example.octokit
                    (Example.on "check_run" OtherPayload) Example.inputs
                    (Example.check_run_event 77 "completed" (Some "success") [7; 8])
                    initial))).
Proof.
  split.
  - apply (proj1 (handlers_use_their_own_reads Example.octokit
                    (Example.on "push" OtherPayload) Example.inputs)).
    constructor.
  - apply (proj2 (handlers_use_their_own_reads Example.octokit
                    (Example.on "check_run" OtherPayload) Example.inputs)).
    constructor.
Defined.

(** ** When a PR is merged *)


(** ** The bulk driver *)

Section Bulk.

Variable octokit : Remote.
Variable context : Context.
Variable inputs : Inputs.

Lemma for_of_listed_processed (prs : list PullRequestSimple) s s' :
  for_of prs (fun pr => processPr octokit context inputs (ByValue (Listed pr))) s
  = (Returned tt, s') ->
  processed (log s') = processed (log s) ++ List.map (fun pr => title (number pr)) prs.
Proof.
  revert s. induction prs as [|pr prs IH]; intros s; simpl.
  - intros [= <-]. now rewrite app_nil_r.
  - unfold bind at 1.
    destruct (processPr octokit context inputs (ByValue (Listed pr)) s) as [r1 s1] eqn:E1.
    apply processPr_processed in E1. simpl in E1.
    destruct r1 as [[]|e|]; [|discriminate..].
    intros E. rewrite (IH _ E), E1, <- app_assoc. reflexivity.
Qed.

Lemma processPages_processed pages :
  (forall h page, pulls_list octokit h (context_repo context) page = Resolved (pages page)) ->
  forall fuel page s s',
    processPages octokit context inputs fuel page s = (Returned tt, s') ->
    processed (log s')
    = processed (log s) ++ List.map (fun pr => title (number pr)) (listing pages fuel page).
Proof.
  intros Hpages fuel. induction fuel as [|fuel IH]; intros page s s'; simpl;
    [discriminate|].
  unfold bind at 1, await. rewrite Hpages. unfold bind.
  destruct (for_of (data (pages page)) _ _) as [r1 s1] eqn:E1.
  destruct r1 as [[]|e|]; [|discriminate..].
  apply for_of_listed_processed in E1. simpl in E1.
  rewrite processed_app in E1. simpl in E1. rewrite app_nil_r in E1.
  rewrite List.map_app, app_assoc, <- E1.
  destruct (has_next (pages page)).
  - apply IH.
  - intros [= <-]. simpl. now rewrite app_nil_r.
Qed.

End Bulk.

(** X10: over a listing that answers page [p] with [pages p], a bulk run
    that returns has processed every PR of the listing once, page after
    page and, in a page, in the order of the page, starting from page 1. *)
Theorem bulk_driver_processes_the_listing octokit context inputs pages fuel s s' :
  (forall h page, pulls_list octokit h (context_repo context) page = Resolved (pages page)) ->
  processAllPrs octokit context inputs fuel s = (Returned tt, s') ->
  processed (log s')
  = processed (log s) ++ List.map (fun pr => title (number pr)) (listing pages fuel 1).
Proof.
  intros Hpages. now apply processPages_processed.
Qed.

Lemma bulk_driver_processes_the_listing_witness :
  processed
    (log (snd (processAllPrs Example.octokit (Example.on "schedule" OtherPayload)
                 Example.inputs 3 initial)))
  = processed (log initial) ++ [title 1; title 2].
Proof.
  apply (bulk_driver_processes_the_listing Example.octokit
           (Example.on "schedule" OtherPayload) Example.inputs Outage.pages 3 initial).
  - reflexivity.
  - reflexivity.
Defined.

(** ** Rejected lookups *)

(** X11: a branch lookup that the remote rejects stores nothing in the
    cache: the call is logged with its error, the cache is left as it was,
    and the next call for the branch asks the remote again and returns
    what it then answers. *)
Theorem rejected_lookup_is_not_cached octokit context b s e s' :
  doesBranchHaveRequiredChecks octokit context b s = (Thrown e, s') ->
  doesBranchHaveRequiredChecksCache s' = doesBranchHaveRequiredChecksCache s
  /\ doesBranchHaveRequiredChecksCache s' !! b = None
  /\ log s' = log s ++ [Called (ReposGetBranch (context_repo context) b) (Some e)]
  /\ forall octokit' branch,
       repos_getBranch octokit' (calls s') (context_repo context) b = Resolved branch ->
       doesBranchHaveRequiredChecks octokit' context b s'
       = (Returned (branch_has_required_checks branch),
          with_cache (<[b := branch_has_required_checks branch]>
                        (doesBranchHaveRequiredChecksCache s'))
            (with_event (Called (ReposGetBranch (context_repo context) b) None) s')).
Proof.
  intros E.
  destruct (doesBranchHaveRequiredChecksCache s !! b) as [v|] eqn:Hc.
  - rewrite (doesBranchHaveRequiredChecks_hit _ _ _ _ _ Hc) in E. discriminate.
  - rewrite (doesBranchHaveRequiredChecks_miss _ _ _ _ Hc) in E.
    destruct (repos_getBranch _ _ _ _); [discriminate|].
    injection E as <- <-. simpl. repeat split; try assumption.
    intros octokit' branch Hb.
    rewrite doesBranchHaveRequiredChecks_miss by exact Hc. now rewrite Hb.
Qed.

Lemma rejected_lookup_is_not_cached_witness :
  doesBranchHaveRequiredChecks Example.octokit (Example.on "push" OtherPayload) "main"
    (snd (doesBranchHaveRequiredChecks Outage.octokit (Example.on "push" OtherPayload)
            "main" initial))
  = (Returned true,
     with_cache (<["main" := true]> ∅)
       (with_event (Called (ReposGetBranch Example.acme "main") None)
          (snd (doesBranchHaveRequiredChecks Outage.octokit
                  (Example.on "push" OtherPayload) "main" initial)))).
Proof.
  apply (proj2 (proj2 (proj2
           (rejected_lookup_is_not_cached Outage.octokit (Example.on "push" OtherPayload)
              "main" initial "Service unavailable" _ eq_refl)))
           Example.octokit Example.protected).
  reflexivity.
Defined.

(** ** The exit code *)

(** X12: a run that returns leaves the exit code at 0 and writes no error
    line, and none of its remote calls was rejected; a run that throws has
    set the exit code to 1 and written the error it throws as its last
    line, and that is the only error line. *)
Theorem exit_code_tells_failure octokit context inputs fuel :
  match fst (run octokit context inputs fuel initial) with
  | Returned _ =>
      exitCode (snd (run octokit context inputs fuel initial)) = 0
      /\ Forall (fun ev => ~ is_error_line ev /\ ~ is_failed_call ev)
           (log (snd (run octokit context inputs fuel initial)))
  | Thrown e =>
      exitCode (snd (run octokit context inputs fuel initial)) = 1
      /\ exists l,
           log (snd (run octokit context inputs fuel initial)) = l ++ [Wrote (Error e)]
           /\ Forall (fun ev => ~ is_error_line ev) l
  | OutOfFuel => exitCode (snd (run octokit context inputs fuel initial)) = 0
  end.
Proof.
  pose (Inv := fun s : State =>
          exitCode s = 0
          /\ Forall (fun ev => ~ is_error_line ev /\ ~ is_failed_call ev) (log s)).
  pose (Exc := fun s : State =>
          exitCode s = 0 /\ Forall (fun ev => ~ is_error_line ev) (log s)).
  assert (forall (s : State) ev,
            ~ is_error_line ev -> ~ is_failed_call ev -> Inv s -> Inv (with_event ev s))
    as Hstep.
  { intros s ev H1 H2 [X L]. split; [exact X|].
    simpl. apply Forall_app. split; [exact L|]. repeat constructor; assumption. }
  assert (forall (s : State) ev, ~ is_error_line ev -> Inv s -> Exc (with_event ev s))
    as Hfail.
  { intros s ev H1 [X L]. split; [exact X|].
    simpl. apply Forall_app. split; [|repeat constructor; assumption].
    eapply Forall_impl; [exact L|]. simpl. tauto. }
  unfold run, try_catch.
  destruct (dispatch octokit context inputs fuel initial) as [r1 s1] eqn:E1.
  assert (match r1 with Returned _ => Inv s1 | _ => Exc s1 end) as H.
  { apply (preserves_dispatch octokit context inputs Inv Exc)
      with (fuel := fuel) (s := initial);
      try assumption.
    - intros s [X L]. split; [exact X|]. eapply Forall_impl; [exact L|]. simpl. tauto.
    - intros d s Hd HI. apply Hstep; simpl; auto; now destruct d.
    - intros d s Hd [X L]. split; [exact X|]. simpl.
      apply Forall_app. split; [exact L|]. repeat constructor; now destruct d.
    - intros s b HI _. destruct (repos_getBranch _ _ _ _).
      + destruct (Hstep s (Called (ReposGetBranch (context_repo context) b) None))
          as [X L]; simpl; auto. now split.
      + apply Hfail; simpl; auto.
    - intros s n pr HI _ _ _.
      assert (Inv (with_diagnostic (Warning ("Merging PR #" +:+ pretty n)) s)) as HI'
        by (apply Hstep; simpl; auto).
      destruct (pulls_merge _ _ _); [apply Hstep|apply Hfail]; simpl; auto.
    - intros s page HI.
      destruct (pulls_list _ _ _ _); [apply Hstep|apply Hfail]; simpl; auto.
    - intros s n HI.
      destruct (pulls_get _ _ _ _); [apply Hstep|apply Hfail]; simpl; auto.
    - split; [reflexivity|constructor]. }
  destruct r1 as [[]|e|]; simpl.
  - exact H.
  - split; [reflexivity|]. exists (log s1). split; [reflexivity|]. apply H.
  - apply H.
Qed.

(** ** The author check *)




(** ** Dry run as a preview *)

Lemma diagnostics_of_app l1 l2 :
  diagnostics_of (l1 ++ l2) = diagnostics_of l1 ++ diagnostics_of l2.
Proof.
  induction l1 as [|[c f|d] l1 IH]; simpl; [reflexivity|assumption|now rewrite IH].
Qed.

Lemma agree_wrote d s1 s2 : agree s1 s2 -> agree (with_diagnostic d s1) (with_diagnostic d s2).
Proof.
  intros (C & D & X). repeat split; try assumption.
  unfold diagnostics in *. simpl. now rewrite !diagnostics_of_app, D.
Qed.

Lemma agree_called c f c' f' s1 s2 :
  agree s1 s2 -> agree (with_event (Called c f) s1) (with_event (Called c' f') s2).
Proof.
  intros (C & D & X). repeat split; try assumption.
  unfold diagnostics in *. simpl. rewrite !diagnostics_of_app. simpl.
  now rewrite !app_nil_r.
Qed.

Lemma agree_called_l c f s1 s2 : agree s1 s2 -> agree s1 (with_event (Called c f) s2).
Proof.
  intros (C & D & X). repeat split; try assumption.
  unfold diagnostics in *. simpl. rewrite !diagnostics_of_app. simpl.
  now rewrite !app_nil_r.
Qed.

Lemma simulates_ret {A} (a : A) : simulates (ret a) (ret a).
Proof. intros s1 s2 H. now split. Qed.

Lemma simulates_write d : simulates (core.write d) (core.write d).
Proof. intros s1 s2 H. split; [reflexivity|]. now apply agree_wrote. Qed.

Lemma simulates_bind {A B} (m1 m2 : Async A) (k1 k2 : A -> Async B) :
  simulates m1 m2 -> (forall a, simulates (k1 a) (k2 a)) ->
  simulates (bind m1 k1) (bind m2 k2).
Proof.
  intros Hm Hk s1 s2 H. unfold bind. specialize (Hm s1 s2 H).
  destruct (m1 s1) as [r1 t1], (m2 s2) as [r2 t2]. simpl in Hm.
  destruct Hm as [<- Ht]. destruct r1 as [a|e|]; [now apply Hk|now split..].
Qed.

Lemma simulates_await {A} c (answer : list Interaction -> Response A) :
  (forall h h', answer h = answer h') -> simulates (await c answer) (await c answer).
Proof.
  intros Hsteady s1 s2 H. unfold await. rewrite (Hsteady (calls s1) (calls s2)).
  destruct (answer (calls s2)); (split; [reflexivity|]); now apply agree_called.
Qed.

Lemma simulates_group {A} t (m1 m2 : Async A) :
  simulates m1 m2 -> simulates (core.group t m1) (core.group t m2).
Proof.
  intros Hm. apply simulates_bind; [apply simulates_write|].
  intros _ s1 s2 H. unfold try_finally. specialize (Hm s1 s2 H).
  destruct (m1 s1) as [r1 t1], (m2 s2) as [r2 t2]. simpl in Hm.
  destruct Hm as [<- Ht].
  destruct r1; (split; [reflexivity|]); simpl; try assumption; now apply agree_wrote.
Qed.

Lemma simulates_for_of {A} (l : list A) (body1 body2 : A -> Async unit) :
  (forall x, simulates (body1 x) (body2 x)) -> simulates (for_of l body1) (for_of l body2).
Proof.
  intros Hb. induction l as [|x l IH]; simpl; [apply simulates_ret|].
  apply simulates_bind; auto.
Qed.

Section Preview.

Variable octokit : Remote.
Variable context : Context.
Variables dry wet : Inputs.

Hypothesis octokit_steady : steady octokit.
Hypothesis same_labels : input_requiredLabels dry = input_requiredLabels wet.
Hypothesis same_authors : input_authors dry = input_authors wet.
Hypothesis dry_is_dry : dryRun dry = true.

Lemma simulates_doesBranchHaveRequiredChecks b :
  simulates (doesBranchHaveRequiredChecks octokit context b)
    (doesBranchHaveRequiredChecks octokit context b).
Proof using octokit_steady.
  intros s1 s2 H. pose proof H as (C & D & X).
  destruct (doesBranchHaveRequiredChecksCache s1 !! b) as [v|] eqn:Hc.
  - rewrite (doesBranchHaveRequiredChecks_hit _ _ _ s1 v Hc).
    rewrite C in Hc. rewrite (doesBranchHaveRequiredChecks_hit _ _ _ s2 v Hc). now split.
  - rewrite (doesBranchHaveRequiredChecks_miss _ _ _ s1 Hc).
    rewrite C in Hc. rewrite (doesBranchHaveRequiredChecks_miss _ _ _ s2 Hc).
    destruct octokit_steady as (_ & Hb & _).
    rewrite (Hb (calls s1) (calls s2)).
    destruct (repos_getBranch _ _ _ _); simpl; (split; [reflexivity|]).
    + repeat split; simpl; [now rewrite C| |assumption].
      apply (agree_called (ReposGetBranch (context_repo context) b) None
               (ReposGetBranch (context_repo context) b) None s1 s2 H).
    + now apply agree_called.
Qed.

Lemma simulates_processSnapshot n pr :
  simulates (processSnapshot octokit context dry n pr)
    (processSnapshot octokit context wet n pr).
Proof using All.
  unfold processSnapshot, core.warning, requiredLabels, authors. cbv zeta.
  rewrite same_labels, same_authors.
  repeat match goal with
    | |- simulates (if ?b then _ else _) (if ?b then _ else _) => destruct b
    | |- simulates (core.write _) (core.write _) => apply simulates_write
    end.
  apply simulates_bind; [apply simulates_doesBranchHaveRequiredChecks|].
  intros has. destruct (negb has); [apply simulates_write|].
  apply simulates_bind; [apply simulates_write|]. intros _.
  rewrite dry_is_dry. simpl. destruct (dryRun wet); simpl; [apply simulates_ret|].
  intros s1 s2 H. unfold await, ret.
  destruct octokit_steady as (_ & _ & _ & Hm). rewrite Hm. simpl.
  split; [reflexivity|]. now apply agree_called_l.
Qed.

Lemma simulates_processPr prParam :
  simulates (processPr octokit context dry prParam) (processPr octokit context wet prParam).
Proof using All.
  unfold processPr. apply simulates_group.
  apply simulates_bind; [|intros pr; apply simulates_processSnapshot].
  destruct prParam as [pr|n]; [apply simulates_ret|].
  apply simulates_bind; [|intros it; apply simulates_ret].
  apply simulates_await. intros h h'. now destruct octokit_steady as (Hg & _).
Qed.

Lemma simulates_processPages fuel page :
  simulates (processPages octokit context dry fuel page)
    (processPages octokit context wet fuel page).
Proof using All.
  revert page. induction fuel as [|fuel IH]; intros page; simpl.
  - intros s1 s2 H. now split.
  - apply simulates_bind.
    + apply simulates_await. intros h h'. now destruct octokit_steady as (_ & _ & Hl & _).
    + intros response. apply simulates_bind.
      * apply simulates_for_of. intros pr. apply simulates_processPr.
      * intros _. destruct (has_next response); [apply IH|apply simulates_ret].
Qed.

Lemma simulates_dispatch fuel :
  simulates (dispatch octokit context dry fuel) (dispatch octokit context wet fuel).
Proof using All.
  unfold dispatch, core.warning.
  repeat match goal with
    | |- simulates (if ?b then _ else _) (if ?b then _ else _) => destruct b
    | |- simulates (core.write _) (core.write _) => apply simulates_write
    | |- simulates (processAllPrs _ _ _ _) _ => apply simulates_processPages
    end.
  - apply simulates_bind; [intros s1 s2 H; destruct (payload context); now split|].
    intros event. unfold processCheckRunCompletedEvent, core.debug.
    repeat match goal with
      | |- simulates (if ?b then _ else _) (if ?b then _ else _) => destruct b
      | |- simulates (core.write _) (core.write _) => apply simulates_write
      end.
    apply simulates_for_of. intros prMini. apply simulates_processPr.
  - apply simulates_bind; [intros s1 s2 H; destruct (payload context); now split|].
    intros event. unfold processDeploymentStatusCreated, core.debug.
    destruct (negb _); [apply simulates_write|apply simulates_processPages].
Qed.

Lemma simulates_run fuel :
  simulates (run octokit context dry fuel) (run octokit context wet fuel).
Proof using All.
  intros s1 s2 H. unfold run, try_catch.
  pose proof (simulates_dispatch fuel s1 s2 H) as Hd.
  destruct (dispatch octokit context dry fuel s1) as [r1 t1],
           (dispatch octokit context wet fuel s2) as [r2 t2].
  simpl in Hd. destruct Hd as [<- Ht].
  destruct r1 as [[]|e|]; try now split.
  unfold bind, core.setFailed, throw. simpl. split; [reflexivity|].
  destruct Ht as (C & D & X). repeat split; simpl; try assumption.
  unfold diagnostics in *. simpl. now rewrite !diagnostics_of_app, D.
Qed.

End Preview.

(** X14: over a remote whose reads do not change during the run and whose
    merges succeed, a dry run is a faithful preview: with the same lists of
    labels and authors, the run in dry run and the run that merges end the
    same way, write the same diagnostics in the same order and leave the
    same cache and exit code; they differ by the merge calls only. *)
Theorem dry_run_previews_the_run octokit context dry wet fuel :
  steady octokit ->
  input_requiredLabels dry = input_requiredLabels wet ->
  input_authors dry = input_authors wet ->
  dryRun dry = true ->
  fst (run octokit context dry fuel initial) = fst (run octokit context wet fuel initial)
  /\ diagnostics (snd (run octokit context dry fuel initial))
     = diagnostics (snd (run octokit context wet fuel initial))
  /\ doesBranchHaveRequiredChecksCache (snd (run octokit context dry fuel initial))
     = doesBranchHaveRequiredChecksCache (snd (run octokit context wet fuel initial))
  /\ exitCode (snd (run octokit context dry fuel initial))
     = exitCode (snd (run octokit context wet fuel initial)).
Proof.
  intros Hsteady Hl Ha Hdry.
  destruct (simulates_run octokit context dry wet Hsteady Hl Ha Hdry fuel initial initial)
    as (Hr & C & D & X); [repeat split|].
  auto.
Qed.

Lemma dry_run_previews_the_run_witness :
  diagnostics
    (snd (run Example.octokit (Example.on "push" OtherPayload) Example.inputs_dry 3 initial))
  = diagnostics
      (snd (run Example.octokit (Example.on "push" OtherPayload) Example.inputs 3 initial)).
Proof.
  apply (dry_run_previews_the_run Example.octokit (Example.on "push" OtherPayload)
           Example.inputs_dry Example.inputs 3).
  - repeat split.
  - reflexivity.
  - reflexivity.
  - reflexivity.
Defined.

(** ** The checks over the built-ins in full *)

Lemma filter_map_swap {A B} (P : B -> bool) (f : A -> B) l :
  List.filter P (List.map f l) = List.map f (List.filter (fun x => P (f x)) l).
Proof.
  induction l as [|x l IH]; simpl; [reflexivity|].
  destruct (P (f x)); simpl; now rewrite IH.
Qed.

Lemma is_ascii_lower c : is_ascii (JS.lower_ascii c) = is_ascii c.
Proof. destruct c as [[] [] [] [] [] [] [] []]; reflexivity. Qed.

Section FullPolicy.

Variable js : Full.Strings.
Variable inputs : Inputs.

Lemma full_reason_names_predicate n pr p q :
  Full.reason js inputs n pr p = Full.reason js inputs n pr q -> p = q.
Proof.
  unfold Full.reason. intros H.
  do 3 apply append_cancel_l in H.
  destruct p, q; try reflexivity; discriminate H.
Qed.

Lemma full_first_failing_pure pr b b' p :
  Full.first_failing js inputs pr b = Some p -> p <> BaseHasRequiredChecks ->
  Full.first_failing js inputs pr b' = Some p.
Proof.
  unfold Full.first_failing. simpl.
  repeat match goal with
    | |- context [negb ?c] => destruct c; simpl
    end;
    intros; try assumption; try discriminate; congruence.
Qed.

Lemma full_first_failing_base pr :
  Full.first_failing js inputs pr true = None <->
  Full.first_failing js inputs pr false = Some BaseHasRequiredChecks.
Proof.
  unfold Full.first_failing. simpl.
  repeat match goal with
    | |- context [negb ?c] => destruct c; simpl
    end;
    split; intros; try reflexivity; discriminate.
Qed.

Lemma full_first_failing_holds_base pr p :
  Full.first_failing js inputs pr true = Some p -> p <> BaseHasRequiredChecks.
Proof.
  unfold Full.first_failing. simpl.
  repeat match goal with
    | |- context [negb ?c] => destruct c; simpl
    end;
    intros [= <-]; discriminate.
Qed.

Lemma full_first_failing_at pr b before p after :
  admission_order = before ++ p :: after ->
  Forall (fun q => Full.holds js inputs pr b q = true) before ->
  Full.holds js inputs pr b p = false ->
  Full.first_failing js inputs pr b = Some p.
Proof.
  unfold Full.first_failing. intros -> Hb Hp.
  induction Hb as [|q before Hq _ IH]; simpl.
  - now rewrite Hp.
  - now rewrite Hq.
Qed.

Variable octokit : Remote.
Variable context : Context.

Lemma full_processSnapshot_denied n pr b p s :
  Full.first_failing js inputs pr b = Some p ->
  p <> BaseHasRequiredChecks ->
  Full.processSnapshot js octokit context inputs n pr s
  = (Returned tt, with_diagnostic (Warning (Full.reason js inputs n pr p)) s).
Proof.
  unfold Full.first_failing, Full.processSnapshot, Full.reason. simpl.
  fold (head_repository pr). fold (Full.author_login js pr).
  destruct (String.eqb _ (head_repository pr)); simpl;
    [|intros [= <-] _; reflexivity].
  destruct (JS.truthy_string _); simpl; [intros [= <-] _; reflexivity|].
  destruct (auto_merge _); simpl; [intros [= <-] _; reflexivity|].
  destruct (draft _) as [[]|]; simpl; try (intros [= <-] _; reflexivity).
  all: fold (Full.has_label js pr).
  all: destruct (JS.has_length (Full.requiredLabels js inputs)); simpl.
  all: try (destruct (forallb _ _); simpl; [|intros [= <-] _; reflexivity]).
  all: destruct (JS.has_length (Full.authors js inputs)); simpl.
  all: try (destruct (JS.includes _ _); simpl; [|intros [= <-] _; reflexivity]).
  all: destruct (mergeable_of pr) as [[[]|]|]; simpl; try (intros [= <-] _; reflexivity).
  all: destruct b; simpl; try discriminate; intros [= <-] Hp; now elim Hp.
Qed.

Lemma full_processSnapshot_passed n pr s :
  Full.first_failing js inputs pr true = None ->
  Full.processSnapshot js octokit context inputs n pr s
  = Full.checkBranchAndMerge js octokit context inputs n pr s.
Proof.
  unfold Full.first_failing, Full.processSnapshot, Full.reason. simpl.
  fold (head_repository pr). fold (Full.author_login js pr).
  destruct (String.eqb _ (head_repository pr)); simpl; [|discriminate].
  destruct (JS.truthy_string _); simpl; [discriminate|].
  destruct (auto_merge _); simpl; [discriminate|].
  destruct (draft _) as [[]|]; simpl; try discriminate.
  all: fold (Full.has_label js pr).
  all: destruct (JS.has_length (Full.requiredLabels js inputs)); simpl.
  all: try (destruct (forallb _ _); simpl; [|discriminate]).
  all: destruct (JS.has_length (Full.authors js inputs)); simpl.
  all: try (destruct (JS.includes _ _); simpl; [|discriminate]).
  all: destruct (mergeable_of pr) as [[[]|]|]; simpl; try discriminate.
  all: intros _; reflexivity.
Qed.

Lemma full_processSnapshot_reason_inv n pr p s :
  Full.processSnapshot js octokit context inputs n pr s
  = (Returned tt, with_diagnostic (Warning (Full.reason js inputs n pr p)) s) ->
  Full.first_failing js inputs pr false = Some p.
Proof.
  destruct (Full.first_failing js inputs pr true) as [q|] eqn:Hq.
  - pose proof (full_first_failing_holds_base _ _ Hq) as Hne.
    rewrite (full_processSnapshot_denied _ _ _ _ _ Hq Hne).
    intros [= H]. apply logged_warning_inj, full_reason_names_predicate in H. subst q.
    now apply full_first_failing_pure with (b := true).
  - rewrite (full_processSnapshot_passed _ _ _ Hq).
    apply full_first_failing_base in Hq. unfold Full.checkBranchAndMerge, bind.
    destruct (doesBranchHaveRequiredChecksCache s !! base_ref (base (fields pr)))
      as [v|] eqn:Hc.
    + rewrite (doesBranchHaveRequiredChecks_hit _ _ _ _ _ Hc).
      destruct v; simpl.
      * unfold core.warning, core.write, await, ret.
        destruct (Full.dryRun js inputs); simpl.
        -- intros [= H]. apply app_inv_head in H. discriminate H.
        -- destruct (pulls_merge _ _ _); [|discriminate].
           intros [= _ H]. rewrite <- app_assoc in H.
           apply app_inv_head in H. discriminate H.
      * unfold core.warning, core.write. intros [= H].
        apply logged_warning_inj, full_reason_names_predicate in H. now subst p.
    + rewrite (doesBranchHaveRequiredChecks_miss _ _ _ _ Hc).
      destruct (repos_getBranch _ _ _ _) as [branch|e]; [|discriminate].
      destruct (branch_has_required_checks branch); simpl.
      * unfold core.warning, core.write, await, ret.
        destruct (Full.dryRun js inputs); simpl.
        -- intros H. apply (f_equal (fun x => log (snd x))) in H. simpl in H.
           rewrite <- app_assoc in H. apply app_inv_head in H. discriminate H.
        -- destruct (pulls_merge _ _ _); [|discriminate].
           intros H. apply (f_equal (fun x => log (snd x))) in H. simpl in H.
           rewrite <- !app_assoc in H. apply app_inv_head in H. discriminate H.
      * unfold core.warning, core.write.
        intros H. apply (f_equal (fun x => log (snd x))) in H. simpl in H.
        rewrite <- app_assoc in H. apply app_inv_head in H. discriminate H.
Qed.


End FullPolicy.

(** With the ASCII definitions for the built-ins, the checks over the
    built-ins in full are the checks of the embedding above. *)
Lemma full_ascii_only_processSnapshot octokit context inputs n pr :
  Full.processSnapshot Full.ascii_only octokit context inputs n pr
  = processSnapshot octokit context inputs n pr.
Proof. reflexivity. Qed.

Lemma full_ascii_only_holds inputs pr b p :
  Full.holds Full.ascii_only inputs pr b p = holds inputs pr b p.
Proof. now destruct p. Qed.

(** On ASCII inputs the lists are those of the ASCII definitions. *)
Lemma full_input_list (js : Full.Strings) input :
  all_chars is_ascii input = true ->
  List.filter (fun it => JS.nonempty it)
    (List.map (fun it => Full.toLowerCase js (Full.trim js it)) (JS.split input))
  = input_list input.
Proof.
  intros H. unfold input_list. f_equal. apply List.map_ext_in. intros p Hp.
  apply (split_from_pieces is_ascii false input p H) in Hp.
  assert (all_chars is_ascii p = true) as Hascii.
  { revert Hp. apply all_chars_impl. intros c Hc. now apply andb_true_iff in Hc. }
  rewrite (Full.trim_ascii js p Hascii).
  apply Full.toLowerCase_ascii.
  unfold JS.trim. now apply all_chars_trimEnd, all_chars_trimStart.
Qed.

Lemma input_list_ascii input r :
  all_chars is_ascii input = true -> In r (input_list input) ->
  all_chars is_ascii r = true.
Proof.
  intros H Hr. apply filter_In in Hr. destruct Hr as [Hr _].
  apply in_map_iff in Hr. destruct Hr as (p & <- & Hp).
  rewrite all_chars_toLowerCase by apply is_ascii_lower.
  unfold JS.trim. apply all_chars_trimEnd, all_chars_trimStart.
  apply (split_from_pieces is_ascii false input p H) in Hp.
  revert Hp. apply all_chars_impl. intros c Hc. now apply andb_true_iff in Hc.
Qed.

Lemma full_requiredLabels_configured (js : Full.Strings) inputs :
  Full.requiredLabels js inputs
  = List.map (Full.toLowerCase js) (Full.configured js (input_requiredLabels inputs)).
Proof.
  unfold Full.requiredLabels, Full.configured.
  rewrite <- (filter_map_swap (fun it => JS.nonempty it) (Full.toLowerCase js)).
  now rewrite List.map_map.
Qed.

Lemma full_has_label_spec (js : Full.Strings) pr r :
  Full.has_label js pr r = true <->
  exists l, In l (labels (fields pr)) /\ Full.toLowerCase js (label_name l) = r.
Proof.
  unfold Full.has_label. rewrite existsb_exists.
  split; intros (l & Hl & H); exists l; (split; [assumption|]);
    now apply String.eqb_eq.
Qed.

Lemma full_labels_present_spec (js : Full.Strings) inputs pr b :
  Full.holds js inputs pr b RequiredLabelsPresent = true <->
  forall c, In c (Full.configured js (input_requiredLabels inputs)) ->
    exists l, In l (labels (fields pr)) /\ Full.same_ignoring_case js (label_name l) c.
Proof.
  simpl. rewrite orb_true_iff, forallb_forall, full_requiredLabels_configured.
  unfold Full.same_ignoring_case. split.
  - intros [H|H] c Hc.
    + destruct (Full.configured js (input_requiredLabels inputs)); [contradiction|].
      discriminate H.
    + apply full_has_label_spec, H, in_map, Hc.
  - intros H. right. intros r Hr. apply in_map_iff in Hr. destruct Hr as (c & <- & Hc).
    apply full_has_label_spec. now apply H.
Qed.

(** C5: the required labels are the entries of the input, trimmed, in lower
    case.  With a non-empty set of them, a PR passes the label predicate
    iff every required label is, up to the case of letters as
    [toLowerCase] folds it, the name of one of its labels: labels
    {Ready, APPROVED} pass the requirement {ready, approved}, labels
    {Ready} fail it.  With an empty set the predicate holds of every PR
    and denies none.  In the code: a PR that passes the four checks before
    is denied for its labels when the predicate fails, and no PR is denied
    for its labels when the predicate holds. *)
Theorem label_predicate_ignores_case (js : Full.Strings) octokit context inputs n
  (pr : Snapshot) (s : State) :
  let required := Full.configured js (input_requiredLabels inputs) in
  let matched :=
    forall c, In c required ->
      exists l, In l (labels (fields pr)) /\ Full.same_ignoring_case js (label_name l) c in
  let denied_for_labels :=
    Full.processSnapshot js octokit context inputs n pr s
    = (Returned tt,
       with_diagnostic (Warning (Full.reason js inputs n pr RequiredLabelsPresent)) s) in
  Full.requiredLabels js inputs = List.map (Full.toLowerCase js) required
  /\ (required <> [] ->
      (Full.holds js inputs pr true RequiredLabelsPresent = true <-> matched))
  /\ (required = [] ->
      Full.holds js inputs pr true RequiredLabelsPresent = true /\ ~ denied_for_labels)
  /\ (input_requiredLabels inputs = "ready, approved" ->
      List.map label_name (labels (fields pr)) = ["Ready"; "APPROVED"] ->
      Full.holds js inputs pr true RequiredLabelsPresent = true)
  /\ (input_requiredLabels inputs = "ready, approved" ->
      List.map label_name (labels (fields pr)) = ["Ready"] ->
      Full.holds js inputs pr true RequiredLabelsPresent = false)
  /\ (Forall (fun q => Full.holds js inputs pr true q = true)
        [SameRepository; NotMerged; AutoMergeNotActivated; NotDraft] ->
      Full.holds js inputs pr true RequiredLabelsPresent = false ->
      denied_for_labels)
  /\ (denied_for_labels -> Full.holds js inputs pr true RequiredLabelsPresent = false).
Proof.
  intros required matched denied_for_labels.
  assert (denied_for_labels -> Full.holds js inputs pr true RequiredLabelsPresent = false)
    as Hinv.
  { intros H. apply full_processSnapshot_reason_inv in H.
    apply find_first in H. destruct H as (_ & _ & _ & H & _).
    now apply negb_true_iff in H. }
  assert (input_requiredLabels inputs = "ready, approved" ->
          Full.requiredLabels js inputs = ["ready"; "approved"]) as Hready.
  { intros E. unfold Full.requiredLabels. rewrite E. now rewrite full_input_list. }
  split; [apply full_requiredLabels_configured|].
  split; [intros _; apply full_labels_present_spec|].
  split; [|split; [|split; [|split]]].
  - intros Hnil.
    assert (Full.holds js inputs pr true RequiredLabelsPresent = true) as Hholds.
    { apply full_labels_present_spec. fold required. rewrite Hnil. intros c []. }
    split; [exact Hholds|]. intros H. apply Hinv in H. congruence.
  - intros E Hlabels. simpl. rewrite (Hready E). unfold Full.has_label.
    destruct (labels (fields pr)) as [|l [|l' [|l'' ls]]]; try discriminate.
    injection Hlabels as Hl Hl'. simpl. rewrite Hl, Hl'.
    rewrite !Full.toLowerCase_ascii by reflexivity. reflexivity.
  - intros E Hlabels. simpl. rewrite (Hready E). unfold Full.has_label.
    destruct (labels (fields pr)) as [|l [|l' ls]]; try discriminate.
    injection Hlabels as Hl. simpl. rewrite Hl.
    rewrite !Full.toLowerCase_ascii by reflexivity. reflexivity.
  - intros Hfour Hfail.
    apply full_processSnapshot_denied with (b := true); [|discriminate].
    now apply full_first_failing_at
      with (before := [SameRepository; NotMerged; AutoMergeNotActivated; NotDraft])
           (after := [AuthorAllowed; MergeableNotFalse; BaseHasRequiredChecks]).
  - exact Hinv.
Qed.

Lemma label_predicate_ignores_case_witness :
  Full.holds Full.ascii_only Example.inputs (Listed (shouted_labels 1)) true
    RequiredLabelsPresent
  = true
  /\ (Full.holds Full.ascii_only Example.inputs (Listed (shouted_labels 1)) true
        RequiredLabelsPresent
      = true <->
      forall c, In c (Full.configured Full.ascii_only (input_requiredLabels Example.inputs)) ->
        exists l,
          In l (labels (fields (Listed (shouted_labels 1))))
          /\ Full.same_ignoring_case Full.ascii_only (label_name l) c)
  /\ Full.holds Full.ascii_only Example.inputs (Listed Example.only_ready) true
       RequiredLabelsPresent
     = false
  /\ Full.processSnapshot Full.ascii_only Example.octokit (Example.on "push" OtherPayload)
       Example.inputs 4 (Listed Example.only_ready) initial
     = (Returned tt,
        with_diagnostic
          (Warning
             "Skipping PR #4: doesn't have all required labels: ready, approved")
          initial)
  /\ Full.holds Full.ascii_only Example.no_policy (Listed Example.only_ready) true
       RequiredLabelsPresent
     = true.
Proof.
  split; [|split; [|split; [|split]]].
  - apply (proj1 (proj2 (proj2 (proj2
             (label_predicate_ignores_case Full.ascii_only Example.octokit
                (Example.on "push" OtherPayload) Example.inputs 1
                (Listed (shouted_labels 1)) initial)))));
      reflexivity.
  - apply (proj1 (proj2
             (label_predicate_ignores_case Full.ascii_only Example.octokit
                (Example.on "push" OtherPayload) Example.inputs 1
                (Listed (shouted_labels 1)) initial))).
    vm_compute. discriminate.
  - apply (proj1 (proj2 (proj2 (proj2 (proj2
             (label_predicate_ignores_case Full.ascii_only Example.octokit
                (Example.on "push" OtherPayload) Example.inputs 4
                (Listed Example.only_ready) initial))))));
      reflexivity.
  - apply (proj1 (proj2 (proj2 (proj2 (proj2 (proj2
             (label_predicate_ignores_case Full.ascii_only Example.octokit
                (Example.on "push" OtherPayload) Example.inputs 4
                (Listed Example.only_ready) initial)))))));
      [repeat constructor|reflexivity].
  - apply (proj1 (proj2 (proj2
             (label_predicate_ignores_case Full.ascii_only Example.octokit
                (Example.on "push" OtherPayload) Example.no_policy 4
                (Listed Example.only_ready) initial)))).
    reflexivity.
Defined.

Lemma full_requiredLabels_ascii (js : Full.Strings) inputs :
  all_chars is_ascii (input_requiredLabels inputs) = true ->
  Full.requiredLabels js inputs = input_list (input_requiredLabels inputs).
Proof. apply full_input_list. Qed.

Lemma full_authors_ascii (js : Full.Strings) inputs :
  all_chars is_ascii (input_authors inputs) = true ->
  Full.authors js inputs = input_list (input_authors inputs).
Proof. apply full_input_list. Qed.

Lemma full_entry_nonempty (js : Full.Strings) input r :
  In r (List.filter (fun it => JS.nonempty it)
          (List.map (fun it => Full.toLowerCase js (Full.trim js it)) (JS.split input))) ->
  r <> "".
Proof.
  intros H. apply filter_In in H. destruct H as [_ H]. now destruct r.
Qed.

Lemma full_well_formed_ascii (js : Full.Strings) input r :
  all_chars is_ascii input = true -> In r (input_list input) ->
  Full.well_formed_entry js r /\ all_chars is_ascii r = true.
Proof.
  intros Hascii Hr. pose proof (input_list_ascii input r Hascii Hr) as Ha.
  destruct (input_list_well_formed input r Hr) as (Hne & Hlow & Htrim & Hsep).
  split; [|exact Ha]. split; [exact Hne|]. split; [|split; [|exact Hsep]].
  - now rewrite Full.toLowerCase_ascii.
  - now rewrite Full.trim_ascii.
Qed.

(** X1: no entry of the two configured lists is empty, whatever the input.
    For an input of ASCII characters each entry is moreover as the parsing
    should leave it: [toLowerCase] and [trim] leave it unchanged, no
    separator is left in it, and it is ASCII again. *)
Theorem configured_entries_are_well_formed (js : Full.Strings) inputs r :
  (In r (Full.requiredLabels js inputs) -> r <> "")
  /\ (In r (Full.authors js inputs) -> r <> "")
  /\ (all_chars is_ascii (input_requiredLabels inputs) = true ->
      In r (Full.requiredLabels js inputs) ->
      Full.well_formed_entry js r /\ all_chars is_ascii r = true)
  /\ (all_chars is_ascii (input_authors inputs) = true ->
      In r (Full.authors js inputs) ->
      Full.well_formed_entry js r /\ all_chars is_ascii r = true).
Proof.
  split; [apply full_entry_nonempty|]. split; [apply full_entry_nonempty|]. split.
  - intros Hascii. rewrite full_requiredLabels_ascii by exact Hascii.
    now apply full_well_formed_ascii.
  - intros Hascii. rewrite full_authors_ascii by exact Hascii.
    now apply full_well_formed_ascii.
Qed.

Lemma configured_entries_are_well_formed_witness :
  Full.well_formed_entry Full.ascii_only "approved"
  /\ all_chars is_ascii "approved" = true.
Proof.
  apply (proj1 (proj2 (proj2
           (configured_entries_are_well_formed Full.ascii_only Example.inputs "approved")))).
  - reflexivity.
  - vm_compute. right. now left.
Defined.

Lemma full_same_ignoring_case_ascii (js : Full.Strings) a b :
  all_chars is_ascii a = true -> all_chars is_ascii b = true ->
  Full.same_ignoring_case js a b -> input_list a = input_list b.
Proof.
  unfold Full.same_ignoring_case. intros Ha Hb H.
  rewrite !Full.toLowerCase_ascii in H by assumption.
  rewrite <- (input_list_toLowerCase a), H. apply input_list_toLowerCase.
Qed.

(** X2: the case of the letters of an input does not matter.  Two ASCII
    inputs that [toLowerCase] sends to the same string configure the same
    required labels and the same authors. *)
Theorem configured_lists_ignore_case (js : Full.Strings) inputs inputs' :
  (all_chars is_ascii (input_requiredLabels inputs) = true ->
   all_chars is_ascii (input_requiredLabels inputs') = true ->
   Full.same_ignoring_case js (input_requiredLabels inputs) (input_requiredLabels inputs') ->
   Full.requiredLabels js inputs = Full.requiredLabels js inputs')
  /\ (all_chars is_ascii (input_authors inputs) = true ->
      all_chars is_ascii (input_authors inputs') = true ->
      Full.same_ignoring_case js (input_authors inputs) (input_authors inputs') ->
      Full.authors js inputs = Full.authors js inputs').
Proof.
  split; intros Ha Hb H.
  - rewrite !full_requiredLabels_ascii by assumption.
    now apply (full_same_ignoring_case_ascii js).
  - rewrite !full_authors_ascii by assumption.
    now apply (full_same_ignoring_case_ascii js).
Qed.

Lemma configured_lists_ignore_case_witness :
  Full.requiredLabels Full.ascii_only Example.inputs
  = Full.requiredLabels Full.ascii_only
      {| input_requiredLabels := "Ready, APPROVED"; input_authors := "";
         input_preferredMergeOption := ""; input_dryRun := "" |}.
Proof.
  apply (proj1 (configured_lists_ignore_case Full.ascii_only Example.inputs
                  {| input_requiredLabels := "Ready, APPROVED"; input_authors := "";
                     input_preferredMergeOption := ""; input_dryRun := "" |}));
    reflexivity.
Defined.

(** X3: an ASCII input configures nothing exactly when it holds white space
    and separators only; the check of an empty list then holds of every
    PR. *)
Theorem blank_input_configures_nothing (js : Full.Strings) inputs :
  (all_chars is_ascii (input_requiredLabels inputs) = true ->
   (Full.requiredLabels js inputs = []
    <-> all_chars is_blank (input_requiredLabels inputs) = true))
  /\ (all_chars is_ascii (input_authors inputs) = true ->
      (Full.authors js inputs = []
       <-> all_chars is_blank (input_authors inputs) = true))
  /\ (Full.requiredLabels js inputs = [] ->
      forall pr b, Full.holds js inputs pr b RequiredLabelsPresent = true)
  /\ (Full.authors js inputs = [] ->
      forall pr b, Full.holds js inputs pr b AuthorAllowed = true).
Proof.
  split; [|split; [|split]].
  - intros Hascii. rewrite full_requiredLabels_ascii by exact Hascii.
    apply input_list_nil.
  - intros Hascii. rewrite full_authors_ascii by exact Hascii.
    apply input_list_nil.
  - intros H pr b. simpl. now rewrite H.
  - intros H pr b. simpl. now rewrite H.
Qed.

Lemma blank_input_configures_nothing_witness :
  (Full.requiredLabels Full.ascii_only
     {| input_requiredLabels := " ,; "; input_authors := "";
        input_preferredMergeOption := ""; input_dryRun := "" |}
   = []
   <-> all_chars is_blank " ,; " = true)
  /\ forall pr b,
       Full.holds Full.ascii_only
         {| input_requiredLabels := " ,; "; input_authors := "";
            input_preferredMergeOption := ""; input_dryRun := "" |}
         pr b RequiredLabelsPresent
       = true.
Proof.
  split.
  - apply (proj1 (blank_input_configures_nothing Full.ascii_only
                    {| input_requiredLabels := " ,; "; input_authors := "";
                       input_preferredMergeOption := ""; input_dryRun := "" |})).
    reflexivity.
  - apply (proj1 (proj2 (proj2
             (blank_input_configures_nothing Full.ascii_only
                {| input_requiredLabels := " ,; "; input_authors := "";
                   input_preferredMergeOption := ""; input_dryRun := "" |})))).
    reflexivity.
Defined.
